(** * QuizApp: the quiz session state machine of [src/pages/QuizApp.tsx]

    The component keeps its state in a dozen [useState] cells and changes it
    through a handful of event handlers.  The development embeds the state
    as a record, every handler as a function on that record, and the
    rendering conditions of the controls (which button is on screen, which
    one is disabled) as a boolean [enabled], so that a run of the program is
    a sequence of events each raised by an enabled control.

    JavaScript strings are modelled by [string], a field that a row lacks
    by the empty string (the page reads every field as it is, except
    [correct], which it splits: statements about what a run brings about
    ask for a spec that is not empty); [===] on strings is [String.eqb],
    and the order of the default [Array.prototype.sort] is the
    lexicographic order on character codes, [String.le].  The filter
    effect, which React runs after the render that follows a change of its
    inputs, is applied together with the event that changes them. *)

From Stdlib Require Import Ascii String List Arith ZArith Lia Bool.
From stdpp Require Import base list strings sorting gmap.

Local Open Scope string_scope.
Local Open Scope list_scope.

(** ** Data model *)

Record QuestionRow := mkQuestionRow {
  set_id : string;
  question_id : string;
  domain : string;
  objective : string;
  difficulty : string;
  type : string;
  question : string;
  option_a : string;
  option_b : string;
  option_c : string;
  option_d : string;
  option_e : string;
  option_f : string;
  correct : string;
  explanation : string;
  image_url : string;
  tags : string
}.

Record QuizHistory := mkQuizHistory {
  q : QuestionRow;
  sel : list string;
  ok : bool
}.

Inductive Mode := home | quiz | review | results | coverage.

Definition Mode_eqb (a b : Mode) : bool :=
  match a, b with
  | home, home | quiz, quiz | review, review
  | results, results | coverage, coverage => true
  | _, _ => false
  end.

Record State := mkState {
  allQs : list QuestionRow;
  filtered : list QuestionRow;
  setId : string;
  domainFilter : string;   (* the [domain] state cell *)
  diff : string;
  currentIdx : nat;
  score : nat;
  selected : list string;
  history : list QuizHistory;
  mode : Mode;
  showAnswer : bool;
  darkMode : bool
}.

(** ** JavaScript primitives used by the handlers *)

(** Truthiness of a string: only the empty string is falsy. *)
Definition truthy (s : string) : bool :=
  match s with EmptyString => false | String _ _ => true end.

(** [s.split(sep)] for a one-character separator: every occurrence of the
    separator ends a token, empty tokens are kept, and the empty string
    yields one empty token. *)
Fixpoint split_on (sep : ascii) (s : string) : list string :=
  match s with
  | EmptyString => [EmptyString]
  | String c s' =>
      if Ascii.eqb c sep then EmptyString :: split_on sep s'
      else match split_on sep s' with
           | t :: ts => String c t :: ts
           | [] => [String c EmptyString]
           end
  end.

(** [arr.includes(x)] on an array of strings. *)
Fixpoint includes (arr : list string) (x : string) : bool :=
  match arr with
  | [] => false
  | y :: arr' => String.eqb y x || includes arr' x
  end.

(** [arr.every(p)]. *)
Fixpoint every {A} (p : A -> bool) (arr : list A) : bool :=
  match arr with
  | [] => true
  | x :: arr' => p x && every p arr'
  end.

(** [Array.from(new Set(arr))]: the distinct values, each at the place of
    its first occurrence. *)
Fixpoint distinct_from (seen arr : list string) : list string :=
  match arr with
  | [] => []
  | x :: arr' =>
      if includes seen x then distinct_from seen arr'
      else x :: distinct_from (x :: seen) arr'
  end.

Definition distinct (arr : list string) : list string := distinct_from [] arr.

(** [arr.sort()] with the default comparison. *)
Definition sort (arr : list string) : list string := merge_sort String.le arr.

(** ** Derived values of a render *)

(** [parseCsv]: the parsed rows without those whose question is empty. *)
Definition parseCsv (parsed : list QuestionRow) : list QuestionRow :=
  List.filter (fun row => truthy (question row)) parsed.

Definition setOptions (s : State) : list string :=
  sort (distinct (List.map set_id (allQs s))).

Definition domainOptions (s : State) : list string :=
  sort (distinct (List.map domain (allQs s))).

Definition difficultyOptions : list string := ["easy"; "medium"; "hard"].

(** The predicate of the filter effect. *)
Definition keeps (sid dom dif : string) (row : QuestionRow) : bool :=
  (negb (truthy sid) || String.eqb (set_id row) sid)
  && (negb (truthy dom) || String.eqb (domain row) dom)
  && (negb (truthy dif) || String.eqb (difficulty row) dif).

(** [filtered[currentIdx]]: [undefined] out of range. *)
Definition current (s : State) : option QuestionRow :=
  filtered s !! currentIdx s.

(** ** State setters ([setIdx], [setScore], ...) *)

Definition setAll (v : list QuestionRow) (s : State) : State :=
  mkState v (filtered s) (setId s) (domainFilter s) (diff s) (currentIdx s)
    (score s) (selected s) (history s) (mode s) (showAnswer s) (darkMode s).

Definition setFiltered (v : list QuestionRow) (s : State) : State :=
  mkState (allQs s) v (setId s) (domainFilter s) (diff s) (currentIdx s)
    (score s) (selected s) (history s) (mode s) (showAnswer s) (darkMode s).

Definition setSetId (v : string) (s : State) : State :=
  mkState (allQs s) (filtered s) v (domainFilter s) (diff s) (currentIdx s)
    (score s) (selected s) (history s) (mode s) (showAnswer s) (darkMode s).

Definition setDomain (v : string) (s : State) : State :=
  mkState (allQs s) (filtered s) (setId s) v (diff s) (currentIdx s)
    (score s) (selected s) (history s) (mode s) (showAnswer s) (darkMode s).

Definition setDiff (v : string) (s : State) : State :=
  mkState (allQs s) (filtered s) (setId s) (domainFilter s) v (currentIdx s)
    (score s) (selected s) (history s) (mode s) (showAnswer s) (darkMode s).

Definition setIdx (v : nat) (s : State) : State :=
  mkState (allQs s) (filtered s) (setId s) (domainFilter s) (diff s) v
    (score s) (selected s) (history s) (mode s) (showAnswer s) (darkMode s).

Definition setScore (v : nat) (s : State) : State :=
  mkState (allQs s) (filtered s) (setId s) (domainFilter s) (diff s)
    (currentIdx s) v (selected s) (history s) (mode s) (showAnswer s)
    (darkMode s).

Definition setSel (v : list string) (s : State) : State :=
  mkState (allQs s) (filtered s) (setId s) (domainFilter s) (diff s)
    (currentIdx s) (score s) v (history s) (mode s) (showAnswer s)
    (darkMode s).

Definition setHist (v : list QuizHistory) (s : State) : State :=
  mkState (allQs s) (filtered s) (setId s) (domainFilter s) (diff s)
    (currentIdx s) (score s) (selected s) v (mode s) (showAnswer s)
    (darkMode s).

Definition setMode (v : Mode) (s : State) : State :=
  mkState (allQs s) (filtered s) (setId s) (domainFilter s) (diff s)
    (currentIdx s) (score s) (selected s) (history s) v (showAnswer s)
    (darkMode s).

Definition setShowAnswer (v : bool) (s : State) : State :=
  mkState (allQs s) (filtered s) (setId s) (domainFilter s) (diff s)
    (currentIdx s) (score s) (selected s) (history s) (mode s) v
    (darkMode s).

Definition setDarkMode (v : bool) (s : State) : State :=
  mkState (allQs s) (filtered s) (setId s) (domainFilter s) (diff s)
    (currentIdx s) (score s) (selected s) (history s) (mode s)
    (showAnswer s) v.

(** ** The filter effect

    It runs after every render in which [allQs], [setId], [domain] or
    [diff] changed, and stores the rows that pass [keeps]. *)
Definition applyFilters (s : State) : State :=
  setFiltered
    (List.filter (keeps (setId s) (domainFilter s) (diff s)) (allQs s)) s.

(** ** Handlers *)

(** [startQuiz] either raises the alert (first component) and returns, or
    resets the session cells and enters the quiz. *)
Definition startQuiz (s : State) : option string * State :=
  if Nat.eqb (length (filtered s)) 0
  then (Some "No questions match filters", s)
  else (None,
        setMode quiz (setShowAnswer false (setHist [] (setSel []
          (setScore 0 (setIdx 0 s)))))).

Definition submitAnswer (s : State) : State :=
  match current s with
  | None => s
  | Some cur =>
      if Nat.eqb (length (selected s)) 0 then s
      else
        let corr := split_on ";" (correct cur) in
        let ok :=
          Nat.eqb (length (selected s)) (length corr)
          && every (fun x => includes corr x) (selected s) in
        setShowAnswer true
          (setHist (history s ++ [mkQuizHistory cur (selected s) ok])
             (setScore (score s + (if ok then 1 else 0)) s))
  end.

Definition nextQuestion (s : State) : State :=
  if Nat.leb (length (filtered s)) (currentIdx s + 1)
  then setMode results s
  else setShowAnswer false (setSel [] (setIdx (currentIdx s + 1) s)).

Definition resetQuiz (s : State) : State :=
  setShowAnswer false (setHist [] (setSel [] (setScore 0 (setIdx 0
    (setMode home s))))).

(** The [onClick] of an option row with key letter [k]. *)
Definition toggleOption (k : string) (s : State) : State :=
  if showAnswer s then s
  else
    let isMulti :=
      match current s with
      | Some cur => String.eqb (type cur) "multi"
      | None => false
      end in
    setSel
      (if isMulti
       then (if includes (selected s) k
             then List.filter (fun i => negb (String.eqb i k)) (selected s)
             else selected s ++ [k])
       else [k])
      s.

(** ** Events and rendered controls *)

Inductive Event :=
  | Loaded                          (* [parseCsv().then(setAll)] resolves *)
  | ToggleDark
  | SelectSet (v : string)
  | SelectDomain (v : string)
  | SelectDifficulty (v : string)
  | Start
  | ToggleOption (k : string)
  | Submit
  | Next
  | Reset
  | ViewReview.

(** The option rows of [renderQuiz]: letters A to F over the six option
    texts. *)
Definition optionText (k : string) (row : QuestionRow) : option string :=
  if String.eqb k "A" then Some (option_a row)
  else if String.eqb k "B" then Some (option_b row)
  else if String.eqb k "C" then Some (option_c row)
  else if String.eqb k "D" then Some (option_d row)
  else if String.eqb k "E" then Some (option_e row)
  else if String.eqb k "F" then Some (option_f row)
  else None.

Definition initial : State :=
  mkState [] [] "" "" "" 0 0 [] [] home false false.

Section Session.

(** The rows that the parser finds in the fetched resource. *)
Variable parsed : list QuestionRow.

(** What each event does to the state (the handler the control is wired
    to, followed by the filter effect where its inputs change). *)
Definition handle (e : Event) (s : State) : State :=
  match e with
  | Loaded => applyFilters (setAll (parseCsv parsed) s)
  | ToggleDark => setDarkMode (negb (darkMode s)) s
  | SelectSet v => applyFilters (setSetId v s)
  | SelectDomain v => applyFilters (setDomain v s)
  | SelectDifficulty v => applyFilters (setDiff v s)
  | Start => snd (startQuiz s)
  | ToggleOption k => toggleOption k s
  | Submit => submitAnswer s
  | Next => nextQuestion s
  | Reset => resetQuiz s
  | ViewReview => setMode review s
  end.

(** Whether the control that raises the event is on screen and not
    disabled in state [s]. *)
Definition enabled (e : Event) (s : State) : bool :=
  match e with
  | Loaded => true
  | ToggleDark => true
  | SelectSet v =>
      Mode_eqb (mode s) home && (negb (truthy v) || includes (setOptions s) v)
  | SelectDomain v =>
      Mode_eqb (mode s) home
      && (negb (truthy v) || includes (domainOptions s) v)
  | SelectDifficulty v =>
      Mode_eqb (mode s) home
      && (negb (truthy v) || includes difficultyOptions v)
  | Start => Mode_eqb (mode s) home && negb (Nat.eqb (length (filtered s)) 0)
  | ToggleOption k =>
      Mode_eqb (mode s) quiz
      && match current s with
         | Some cur =>
             match optionText k cur with
             | Some text => truthy text
             | None => false
             end
         | None => false
         end
  | Submit =>
      Mode_eqb (mode s) quiz
      && match current s with Some _ => true | None => false end
      && negb (showAnswer s)
      && negb (Nat.eqb (length (selected s)) 0)
  | Next =>
      Mode_eqb (mode s) quiz
      && match current s with Some _ => true | None => false end
      && showAnswer s
  | Reset => negb (Mode_eqb (mode s) home)
  | ViewReview => Mode_eqb (mode s) results
  end.

(** A run: every event is raised by a control that is enabled when it
    happens. *)
Fixpoint run (es : list Event) (s : State) : option State :=
  match es with
  | [] => Some s
  | e :: es' => if enabled e s then run es' (handle e s) else None
  end.

Inductive reachable : State -> Prop :=
  | reachable_initial : reachable initial
  | reachable_step e s :
      reachable s -> enabled e s = true -> reachable (handle e s).

End Session.



(** ** Vocabulary of the statements *)

(** Number of history entries whose correctness flag is set. *)
Definition countOk (h : list QuizHistory) : nat :=
  length (List.filter ok h).

(** Number of [Submit] events since the last [Start] or [Reset] of a run,
    [n] being the number before the run. *)
Fixpoint submitsSince (n : nat) (es : list Event) : nat :=
  match es with
  | [] => n
  | Start :: es' | Reset :: es' => submitsSince 0 es'
  | Submit :: es' => submitsSince (S n) es'
  | _ :: es' => submitsSince n es'
  end.

(** [l] is the sorted list of the distinct values that field [f] takes in
    the dataset [qs]. *)
Definition sorted_distinct_values
    (f : QuestionRow → string) (qs : list QuestionRow) (l : list string)
    : Prop :=
  Sorted String.le l ∧ NoDup l ∧ ∀ v, v ∈ l ↔ ∃ row, row ∈ qs ∧ f row = v.

(** What holds of the derived cells in every state of a run. *)
Definition coherent (parsed : list QuestionRow) (s : State) : Prop :=
  filtered s
    = List.filter (keeps (setId s) (domainFilter s) (diff s)) (allQs s)
  ∧ (allQs s = [] ∨ allQs s = parseCsv parsed)
  ∧ (mode s = quiz → (currentIdx s < length (filtered s))%nat).

(** ** Sample data *)

Definition sample_single : QuestionRow :=
  mkQuestionRow "A" "1" "Core" "" "easy" "single" "Q1?"
    "x" "y" "" "" "" "" "A" "" "" "".

Definition sample_multi : QuestionRow :=
  mkQuestionRow "A" "2" "Core" "" "hard" "multi" "Q2?"
    "x" "y" "z" "" "" "" "B;C" "" "" "".

Definition sample_repeated : QuestionRow :=
  mkQuestionRow "B" "3" "Cloud" "" "medium" "multi" "Q3?"
    "x" "y" "z" "" "" "" "A;A" "" "" "".

(** The state right after a first answer was submitted and revealed. *)
Definition revealed_example : State :=
  mkState [sample_single] [sample_single] "" "" "" 0 1 ["A"]
    [mkQuizHistory sample_single ["A"] true] quiz true false.

(** The same after the first of two questions. *)
Definition two_revealed_example : State :=
  mkState [sample_single; sample_multi] [sample_single; sample_multi]
    "" "" "" 0 1 ["A"] [mkQuizHistory sample_single ["A"] true] quiz true
    false.

(** The state in which "A" is selected on a question whose correct-answer
    spec is "A;A". *)
Definition repeated_example : State :=
  mkState [sample_repeated] [sample_repeated] "" "" "" 0 0 ["A"] []
    quiz false false.

(** The state in which "B" and "C" are selected on [sample_multi]. *)
Definition multi_example : State :=
  mkState [sample_single; sample_multi] [sample_multi] "" "" "hard" 0 0
    ["B"; "C"] [] quiz false false.

(** ** The rest of the component *)

Definition getDifficultyColor (d : string) : string :=
  if String.eqb d "easy" then "bg-success text-success-foreground"
  else if String.eqb d "medium" then "bg-warning text-warning-foreground"
  else if String.eqb d "hard" then "bg-destructive text-destructive-foreground"
  else "bg-muted text-muted-foreground".

(** The [coverage] memo (the name is taken by the mode).  Its two tables are object literals used as maps
    from a field value to a count.  An object literal also answers for the
    names it inherits (its constructor, its string conversion, ...); which
    names these are is the engine's business, hence the parameter.  A row
    whose value is such a name makes the table hold something else than
    counts: the embedding stops there, with [None]. *)
Record Coverage := mkCoverage {
  total : nat;
  byDom : option (gmap string nat);
  byDiff : option (gmap string nat)
}.

Section CoverageMemo.

Variable inherited : string → bool.

(** [m[k] = (m[k] || 0) + 1] *)
Definition bump (m : option (gmap string nat)) (k : string)
    : option (gmap string nat) :=
  match m with
  | Some m =>
      if inherited k then None
      else Some (<[k := default 0 (m !! k) + 1]> m)
  | None => None
  end.

Definition coverageMemo (s : State) : Coverage :=
  mkCoverage
    (length (allQs s))
    (fold_left (fun m row => bump m (domain row)) (allQs s) (Some ∅))
    (fold_left (fun m row => bump m (difficulty row)) (allQs s) (Some ∅)).

End CoverageMemo.

(** [Object.keys(m).length] *)
Definition keyCount (m : gmap string nat) : nat := size m.

(** The sum of the counts that the coverage view lists. *)
Definition countSum (m : gmap string nat) : nat :=
  map_fold (fun _ n acc => n + acc) 0 m.

(** The option row of key letter [keyLetter] over option text [text]:
    [None] when the row is not rendered, else its class name. *)
Definition isSelected (keyLetter : string) (s : State) : bool :=
  includes (selected s) keyLetter.

Definition isCorrect (keyLetter : string) (s : State) : bool :=
  match current s with
  | Some cur => includes (split_on ";" (correct cur)) keyLetter
  | None => false
  end.

Definition OptionRow (keyLetter text : string) (s : State) : option string :=
  if negb (truthy text) then None
  else
    Some (String.append "quiz-option cursor-pointer"
            (if showAnswer s
             then (if isCorrect keyLetter s then " correct"
                   else if isSelected keyLetter s
                           && negb (isCorrect keyLetter s)
                        then " incorrect"
                        else "")
             else if isSelected keyLetter s then " selected" else "")).

(** The label of the button wired to [nextQuestion]. *)
Definition nextLabel (s : State) : string :=
  if Nat.leb (length (filtered s)) (currentIdx s + 1)
  then "View Results" else "Next Question".

(** The figure under "Incorrect" on the results screen,
    [filtered.length - score]. *)
Definition incorrectFigure (s : State) : Z :=
  (Z.of_nat (length (filtered s)) - Z.of_nat (score s))%Z.

(** ** Steps of a run, by shape *)

(** The session cells of two states agree. *)
Definition same_session (s s' : State) : Prop :=
  currentIdx s' = currentIdx s ∧ score s' = score s
  ∧ selected s' = selected s ∧ history s' = history s
  ∧ mode s' = mode s ∧ showAnswer s' = showAnswer s.

Inductive step : State → State → Prop :=
  | step_idle s s' :
      same_session s s' → filtered s' = filtered s → step s s'
  | step_config s s' :
      mode s = home → same_session s s' → step s s'
  | step_start s :
      mode s = home → filtered s ≠ [] →
      step s (mkState (allQs s) (filtered s) (setId s) (domainFilter s)
                (diff s) 0 0 [] [] quiz false (darkMode s))
  | step_toggle s k cur text :
      mode s = quiz → showAnswer s = false → current s = Some cur →
      optionText k cur = Some text → truthy text = true →
      step s (toggleOption k s)
  | step_submit s cur :
      mode s = quiz → showAnswer s = false → current s = Some cur →
      selected s ≠ [] →
      step s (submitAnswer s)
  | step_next_last s :
      mode s = quiz → showAnswer s = true →
      (length (filtered s) ≤ currentIdx s + 1)%nat →
      step s (setMode results s)
  | step_next s :
      mode s = quiz → showAnswer s = true →
      (currentIdx s + 1 < length (filtered s))%nat →
      step s (setShowAnswer false (setSel [] (setIdx (currentIdx s + 1) s)))
  | step_reset s :
      mode s ≠ home → step s (resetQuiz s)
  | step_review s :
      mode s = results → step s (setMode review s).

(** What holds of dataset and filtered list beyond [coherent]. *)
Definition settled (parsed : list QuestionRow) (s : State) : Prop :=
  coherent parsed s
  ∧ (mode s ≠ home → filtered s ≠ [])
  ∧ mode s ≠ coverage.

(** The events of a user who answers "A" to [n] questions in a row. *)
Fixpoint answerAll (n : nat) : list Event :=
  match n with
  | 0 => []
  | S n' => ToggleOption "A" :: Submit :: Next :: answerAll n'
  end.

(** The names that object literals inherit in the engines at hand. *)
Definition sample_inherited (k : string) : bool :=
  includes
    ["constructor"; "hasOwnProperty"; "isPrototypeOf";
     "propertyIsEnumerable"; "toLocaleString"; "toString"; "valueOf";
     "__proto__"; "__defineGetter__"; "__defineSetter__";
     "__lookupGetter__"; "__lookupSetter__"] k.

(** The state at the end of a one-question quiz answered correctly. *)
Definition results_example : State :=
  mkState [sample_single; sample_multi] [sample_single] "" "" "easy" 0 1
    ["A"] [mkQuizHistory sample_single ["A"] true] results true false.

(** A row with a question and no option text, and the state in which it
    is the current question. *)
Definition sample_blank : QuestionRow :=
  mkQuestionRow "C" "4" "Core" "" "easy" "single" "Q4?"
    "" "" "" "" "" "" "A" "" "" "".

Definition blank_example : State :=
  mkState [sample_blank] [sample_blank] "" "" "" 0 0 [] [] quiz false false.

(** The state in which the three sample rows are loaded. *)
Definition loaded_example : State :=
  setAll [sample_single; sample_multi; sample_repeated] initial.

(** * Proofs *)

(** ** The primitives *)

Lemma truthy_false (v : string) : truthy v = false ↔ v = "".
Proof. by destruct v. Qed.

Lemma includes_elem_of (arr : list string) (x : string) :
  includes arr x = true ↔ x ∈ arr.
Proof.
  induction arr as [|y arr IH]; simpl.
  - split; [done | by intros ?%elem_of_nil].
  - rewrite orb_true_iff, String.eqb_eq, IH, elem_of_cons.
    split; (intros [Heq|Hin]; [left; by symmetry | by right]).
Qed.

Lemma includes_not_elem_of (arr : list string) (x : string) :
  includes arr x = false ↔ x ∉ arr.
Proof. rewrite <- includes_elem_of. by destruct (includes arr x). Qed.

Lemma every_spec {A} (p : A → bool) (arr : list A) :
  every p arr = true ↔ ∀ x, x ∈ arr → p x = true.
Proof.
  induction arr as [|y arr IH]; simpl.
  - split; [by intros _ x ?%elem_of_nil | done].
  - rewrite andb_true_iff, IH. split.
    + intros [Hy Harr] x [->|Hx]%elem_of_cons; auto.
    + intros Hall. split; [|intros x Hx]; apply Hall, elem_of_cons; auto.
Qed.

Lemma elem_of_List_filter {A} (f : A → bool) (l : list A) (x : A) :
  x ∈ List.filter f l ↔ x ∈ l ∧ f x = true.
Proof. rewrite !list_elem_of_In. apply filter_In. Qed.

Lemma sublist_List_filter {A} (f : A → bool) (l : list A) :
  List.filter f l `sublist_of` l.
Proof.
  induction l as [|x l IH]; simpl; [constructor|].
  destruct (f x); by constructor.
Qed.

Lemma NoDup_List_filter {A} (f : A → bool) (l : list A) :
  NoDup l → NoDup (List.filter f l).
Proof. intros Hl. eapply sublist_NoDup; [done | apply sublist_List_filter]. Qed.

Lemma keeps_spec (sid dom dif : string) (row : QuestionRow) :
  keeps sid dom dif row = true ↔
    (sid = "" ∨ set_id row = sid)
    ∧ (dom = "" ∨ domain row = dom)
    ∧ (dif = "" ∨ difficulty row = dif).
Proof.
  unfold keeps.
  rewrite !andb_true_iff, !orb_true_iff, !negb_true_iff, !truthy_false,
    !String.eqb_eq.
  tauto.
Qed.

(** ** The filter engine *)

Lemma sublist_List_filter_max {A} (f : A → bool) (l qs : list A) :
  l `sublist_of` qs → (∀ x, x ∈ l → f x = true) →
  l `sublist_of` List.filter f qs.
Proof.
  induction 1 as [|x l1 l2 _ IH|x l1 l2 _ IH]; intros Hall; simpl.
  - constructor.
  - rewrite (Hall x) by (apply elem_of_cons; by left).
    constructor. apply IH. intros y Hy. apply Hall, elem_of_cons. by right.
  - destruct (f x); [constructor|]; by apply IH.
Qed.

(** C2. The list stored by the filter effect holds exactly the rows of the
    dataset that agree with every non-empty selection (set, domain,
    difficulty) under string equality, and it is a subsequence of the
    dataset, in the dataset's order: the longest one made of such rows. *)
Theorem applyFilters_spec (s : State) :
  (∀ row,
     row ∈ filtered (applyFilters s) ↔
       row ∈ allQs s
       ∧ (setId s = "" ∨ set_id row = setId s)
       ∧ (domainFilter s = "" ∨ domain row = domainFilter s)
       ∧ (diff s = "" ∨ difficulty row = diff s))
  ∧ filtered (applyFilters s) `sublist_of` allQs s
  ∧ (∀ l,
       l `sublist_of` allQs s →
       (∀ row, row ∈ l →
          (setId s = "" ∨ set_id row = setId s)
          ∧ (domainFilter s = "" ∨ domain row = domainFilter s)
          ∧ (diff s = "" ∨ difficulty row = diff s)) →
       l `sublist_of` filtered (applyFilters s)).
Proof.
  split; [|split].
  - intros row. simpl. by rewrite elem_of_List_filter, keeps_spec.
  - simpl. apply sublist_List_filter.
  - intros l Hsub Hall. simpl. apply sublist_List_filter_max; [done|].
    intros row Hrow. by apply keeps_spec, Hall.
Qed.

Lemma applyFilters_spec_witness :
  [sample_multi] `sublist_of` filtered (applyFilters multi_example).
Proof.
  apply (applyFilters_spec multi_example).
  - apply sublist_cons. reflexivity.
  - intros row ->%list_elem_of_singleton. vm_compute. tauto.
Defined.

(** String equality is case-sensitive: a selection that differs from the
    field only by case keeps nothing. *)
Example applyFilters_case_sensitive :
  filtered (applyFilters
    (mkState [sample_single] [] "" "core" "" 0 0 [] [] home false false))
    = []
  ∧ filtered (applyFilters
    (mkState [sample_single] [] "" "Core" "" 0 0 [] [] home false false))
    = [sample_single].
Proof. by split. Qed.

(** The scenario of the specification: of the two sample rows, the
    difficulty selection "easy" keeps exactly the first. *)
Example applyFilters_easy :
  filtered (applyFilters
    (mkState [sample_single; sample_multi] [] "" "" "easy" 0 0 [] []
       home false false))
    = [sample_single].
Proof. reflexivity. Qed.

(** ** Start, reset and the guards of submit *)

(** C8. [resetQuiz] goes home and clears index, score, selection, history
    and reveal flag; the dataset, the filtered list and the three filter
    selections stay as they are. *)
Theorem resetQuiz_spec (s : State) :
  resetQuiz s =
    mkState (allQs s) (filtered s) (setId s) (domainFilter s) (diff s)
      0 0 [] [] home false (darkMode s).
Proof. reflexivity. Qed.

(** C6. From [home] with an empty filtered list, [startQuiz] raises the
    alert and returns the state it was given; with a non-empty filtered
    list it sets index and score to 0, empties selection and history,
    clears the reveal flag and enters [quiz]. *)
Theorem startQuiz_spec (s : State) :
  mode s = home →
  (filtered s = [] →
     startQuiz s = (Some "No questions match filters", s))
  ∧ (filtered s ≠ [] →
     startQuiz s =
       (None,
        mkState (allQs s) (filtered s) (setId s) (domainFilter s) (diff s)
          0 0 [] [] quiz false (darkMode s))).
Proof.
  intros _. unfold startQuiz. split; intros Hf.
  - by rewrite Hf.
  - destruct (Nat.eqb_spec (length (filtered s)) 0) as [Hlen|Hlen];
      [by apply nil_length_inv in Hlen | done].
Qed.

Lemma startQuiz_spec_witness :
  startQuiz initial = (Some "No questions match filters", initial)
  ∧ startQuiz (applyFilters (setAll [sample_single] initial))
    = (None,
       mkState [sample_single] [sample_single] "" "" "" 0 0 [] [] quiz
         false false).
Proof.
  split.
  - apply (startQuiz_spec initial); reflexivity.
  - apply (startQuiz_spec (applyFilters (setAll [sample_single] initial)));
      [reflexivity | discriminate].
Defined.

(** [submitAnswer] does not look at the reveal flag: called again on an
    answer that is already revealed, in a state that a run reaches, it
    records the answer a second time and raises the score. *)
Lemma submitAnswer_when_revealed :
  run [sample_single] [Loaded; Start; ToggleOption "A"; Submit] initial
    = Some revealed_example
  ∧ mode revealed_example = quiz
  ∧ showAnswer revealed_example = true
  ∧ submitAnswer revealed_example ≠ revealed_example
  ∧ length (history (submitAnswer revealed_example)) = 2
  ∧ score (submitAnswer revealed_example) = 2.
Proof. repeat split; try reflexivity. discriminate. Qed.

(** C5 (as the code has it). [submitAnswer] itself returns the state
    unchanged when there is no current question or the selection is empty;
    mode and reveal flag are not tested by the handler but by the
    rendering: the Submit control is on screen and enabled exactly in
    [quiz] mode, with a current question, reveal flag false and a non-empty
    selection, so that no run contains a [Submit] outside these states. *)
Theorem submitAnswer_guards (s : State) :
  (current s = None ∨ selected s = [] → submitAnswer s = s)
  ∧ (enabled Submit s = true ↔
       mode s = quiz ∧ is_Some (current s) ∧ showAnswer s = false
       ∧ selected s ≠ [])
  ∧ (∀ parsed es,
       ¬ (mode s = quiz ∧ showAnswer s = false ∧ selected s ≠ []) →
       run parsed (Submit :: es) s = None).
Proof.
  assert (Hen : enabled Submit s = true ↔
       mode s = quiz ∧ is_Some (current s) ∧ showAnswer s = false
       ∧ selected s ≠ []).
  { simpl. rewrite !andb_true_iff, !negb_true_iff, Nat.eqb_neq.
    split.
    - intros [[[Hm Hc] Hs] Hl]. repeat split.
      + by destruct (mode s).
      + by destruct (current s).
      + done.
      + intros Hnil. by rewrite Hnil in Hl.
    - intros (Hm & Hc & Hs & Hl). repeat split.
      + by rewrite Hm.
      + by destruct Hc as [? ->].
      + done.
      + by destruct (selected s). }
  split; [|split; [done|]].
  - unfold submitAnswer. intros [Hc|Hsel].
    + by rewrite Hc.
    + rewrite Hsel. by destruct (current s).
  - intros parsed es Hno. cbn [run].
    destruct (enabled Submit s) eqn:He in |- *; [|done].
    destruct Hno. apply Hen in He. tauto.
Qed.

Lemma submitAnswer_guards_witness :
  submitAnswer initial = initial
  ∧ run [sample_single] [Submit] revealed_example = None.
Proof.
  split.
  - apply (submitAnswer_guards initial). by left.
  - apply (submitAnswer_guards revealed_example).
    intros (_ & Hs & _). discriminate Hs.
Defined.

(** ** Scoring *)

(** Past its two guards, [submitAnswer] appends one history entry whose
    flag is the value of the length-and-inclusion test, adds the flag to
    the score and reveals the answer. *)
Lemma submitAnswer_unfold (s : State) (cur : QuestionRow) :
  current s = Some cur →
  selected s ≠ [] →
  let corr := split_on ";" (correct cur) in
  let b := Nat.eqb (length (selected s)) (length corr)
           && every (fun x => includes corr x) (selected s) in
  submitAnswer s =
    setShowAnswer true
      (setHist (history s ++ [mkQuizHistory cur (selected s) b])
         (setScore (score s + (if b then 1 else 0)) s)).
Proof.
  intros Hcur Hsel. unfold submitAnswer. rewrite Hcur.
  destruct (Nat.eqb_spec (length (selected s)) 0) as [Hlen|Hlen]; [|done].
  by apply nil_length_inv in Hlen.
Qed.

(** The test of [submitAnswer], read on lists. *)
Lemma ok_test_spec (chosen corr : list string) :
  Nat.eqb (length chosen) (length corr)
  && every (fun x => includes corr x) chosen = true
  ↔ length chosen = length corr ∧ ∀ x, x ∈ chosen → x ∈ corr.
Proof.
  rewrite andb_true_iff, Nat.eqb_eq, every_spec.
  by setoid_rewrite includes_elem_of.
Qed.

(** A duplicate-free selection that passes the test is a rearrangement of
    the tokens. *)
Lemma ok_test_Permutation (chosen corr : list string) :
  NoDup chosen →
  length chosen = length corr →
  (∀ x, x ∈ chosen → x ∈ corr) →
  chosen ≡ₚ corr.
Proof.
  intros Hnd Hlen Hincl.
  apply submseteq_length_Permutation; [by apply NoDup_submseteq | lia].
Qed.

Lemma ok_test_set_equal (chosen corr : list string) :
  NoDup chosen →
  NoDup corr →
  Nat.eqb (length chosen) (length corr)
  && every (fun x => includes corr x) chosen = true
  ↔ ∀ x, x ∈ chosen ↔ x ∈ corr.
Proof.
  intros Hnd Hcorr. rewrite ok_test_spec. split.
  - intros [Hlen Hincl] x.
    by rewrite (ok_test_Permutation chosen corr Hnd Hlen Hincl).
  - intros Heq. split; [|intros x; by apply Heq].
    apply Permutation_length. by apply NoDup_Permutation.
Qed.

Lemma ok_test_repeated (chosen corr : list string) :
  NoDup chosen →
  ¬ NoDup corr →
  Nat.eqb (length chosen) (length corr)
  && every (fun x => includes corr x) chosen = false.
Proof.
  intros Hnd Hrep. apply not_true_is_false. intros [Hlen Hincl]%ok_test_spec.
  apply Hrep. by rewrite <- (ok_test_Permutation chosen corr Hnd Hlen Hincl).
Qed.

(** The set of selected letters and the set of tokens of "A;A" are equal,
    and the answer is recorded as incorrect. *)
Lemma scoring_repeated_letter :
  run [sample_repeated] [Loaded; Start; ToggleOption "A"] initial
    = Some repeated_example
  ∧ mode repeated_example = quiz
  ∧ showAnswer repeated_example = false
  ∧ selected repeated_example ≠ []
  ∧ current repeated_example = Some sample_repeated
  ∧ (∀ x, x ∈ selected repeated_example
          ↔ x ∈ split_on ";" (correct sample_repeated))
  ∧ history (submitAnswer repeated_example)
    = [mkQuizHistory sample_repeated ["A"] false]
  ∧ score (submitAnswer repeated_example) = 0.
Proof.
  repeat split; try reflexivity; try discriminate.
  - intros ->%list_elem_of_singleton. simpl. apply elem_of_cons. by left.
  - simpl. rewrite !elem_of_cons, elem_of_nil. tauto.
Qed.

(** C1 (as the code has it). In [quiz] mode with the answer not yet
    revealed and a non-empty, duplicate-free selection, [submitAnswer]
    records the answer as correct iff the selection has as many letters as
    the correct-answer spec has tokens between ";" and every selected
    letter is one of the tokens; when the tokens are pairwise distinct this
    is equality of the two sets; a selection that is a proper subset or a
    proper superset of the token set is recorded as incorrect. *)
Theorem submitAnswer_scoring (s : State) (cur : QuestionRow) :
  mode s = quiz →
  showAnswer s = false →
  selected s ≠ [] →
  NoDup (selected s) →
  current s = Some cur →
  let corr := split_on ";" (correct cur) in
  ∃ b : bool,
    submitAnswer s =
      setShowAnswer true
        (setHist (history s ++ [mkQuizHistory cur (selected s) b])
           (setScore (score s + (if b then 1 else 0)) s))
    ∧ (b = true ↔
         length (selected s) = length corr
         ∧ ∀ x, x ∈ selected s → x ∈ corr)
    ∧ (NoDup corr → (b = true ↔ ∀ x, x ∈ selected s ↔ x ∈ corr))
    ∧ (selected s ⊆ corr → corr ⊈ selected s → b = false)
    ∧ (corr ⊆ selected s → selected s ⊈ corr → b = false).
Proof.
  intros _ _ Hsel Hnd Hcur corr.
  eexists. split; [by apply submitAnswer_unfold|].
  fold corr. split; [apply ok_test_spec|].
  split; [intros Hcorr; by apply ok_test_set_equal|].
  split.
  - intros _ Hproper. apply not_true_is_false.
    intros [Hlen Hincl]%ok_test_spec. apply Hproper. intros x Hx.
    by rewrite (ok_test_Permutation _ _ Hnd Hlen Hincl).
  - intros _ Hproper. apply not_true_is_false.
    intros [_ Hincl]%ok_test_spec. by apply Hproper.
Qed.

Lemma submitAnswer_scoring_witness :
  ∃ b : bool,
    submitAnswer multi_example =
      setShowAnswer true
        (setHist [mkQuizHistory sample_multi ["B"; "C"] b]
           (setScore (if b then 1 else 0) multi_example))
    ∧ (b = true ↔
         2 = length (split_on ";" "B;C")
         ∧ ∀ x, x ∈ ["B"; "C"] → x ∈ split_on ";" "B;C").
Proof.
  destruct (submitAnswer_scoring multi_example sample_multi)
    as (b & Heq & Hb & _).
  - reflexivity.
  - reflexivity.
  - discriminate.
  - apply (bool_decide_unpack _). vm_compute. exact I.
  - reflexivity.
  - exists b. split; [exact Heq | exact Hb].
Defined.

(** The scenarios of the specification on the multi-answer sample row:
    "B" and "C" together are correct, "B" alone is not, and "A" with "B"
    and "C" is not. *)
Example submitAnswer_multi_scenarios :
  List.map ok (history (submitAnswer multi_example)) = [true]
  ∧ List.map ok (history (submitAnswer (setSel ["B"] multi_example)))
    = [false]
  ∧ List.map ok
      (history (submitAnswer (setSel ["A"; "B"; "C"] multi_example)))
    = [false]
  ∧ List.map ok (history (submitAnswer (setSel ["C"; "B"] multi_example)))
    = [true].
Proof. by repeat split. Qed.

(** C10. The flag is set only if the selection has as many letters as the
    correct-answer spec has tokens, repeated tokens counted each time; so
    on a question whose spec repeats a token, every non-empty
    duplicate-free selection is recorded as incorrect and leaves the score
    where it was, also when it has the same letters as the spec. *)
Theorem submitAnswer_repeated_token (s : State) (cur : QuestionRow) :
  current s = Some cur →
  selected s ≠ [] →
  (∃ b : bool,
     submitAnswer s =
       setShowAnswer true
         (setHist (history s ++ [mkQuizHistory cur (selected s) b])
            (setScore (score s + (if b then 1 else 0)) s))
     ∧ (b = true →
        length (selected s) = length (split_on ";" (correct cur))))
  ∧ (NoDup (selected s) →
     ¬ NoDup (split_on ";" (correct cur)) →
     submitAnswer s =
       setShowAnswer true
         (setHist (history s ++ [mkQuizHistory cur (selected s) false])
            (setScore (score s + 0) s))).
Proof.
  intros Hcur Hsel. rewrite (submitAnswer_unfold s cur Hcur Hsel). split.
  - eexists. split; [done|]. by intros [Hlen _]%ok_test_spec.
  - intros Hnd Hrep. by rewrite (ok_test_repeated _ _ Hnd Hrep).
Qed.

Lemma submitAnswer_repeated_token_witness :
  submitAnswer repeated_example =
    setShowAnswer true
      (setHist [mkQuizHistory sample_repeated ["A"] false]
         (setScore 0 repeated_example)).
Proof.
  apply (submitAnswer_repeated_token repeated_example sample_repeated).
  - reflexivity.
  - discriminate.
  - apply (bool_decide_unpack _). vm_compute. exact I.
  - apply (proj1 (bool_decide_eq_false _)). vm_compute. reflexivity.
Defined.

(** ** Runs *)

(** What the enabling conditions give to the handlers. *)
Lemma enabled_Start (s : State) :
  enabled Start s = true ↔ mode s = home ∧ filtered s ≠ [].
Proof.
  simpl. rewrite andb_true_iff, negb_true_iff, Nat.eqb_neq. split.
  - intros [Hm Hl]. split; [by destruct (mode s)|].
    intros Hnil. by rewrite Hnil in Hl.
  - intros [Hm Hl]. rewrite Hm. split; [done|]. by destruct (filtered s).
Qed.

Lemma enabled_Submit (s : State) :
  enabled Submit s = true →
  mode s = quiz ∧ (∃ cur, current s = Some cur) ∧ showAnswer s = false
  ∧ selected s ≠ [].
Proof.
  simpl. rewrite !andb_true_iff, !negb_true_iff, Nat.eqb_neq.
  intros [[[Hm Hc] Hs] Hl]. repeat split; [by destruct (mode s)| |done|].
  - destruct (current s) as [cur|]; [by exists cur | done].
  - intros Hnil. by rewrite Hnil in Hl.
Qed.

Lemma enabled_home_only (e : Event) (s : State) :
  match e with
  | SelectSet _ | SelectDomain _ | SelectDifficulty _ | Start => True
  | _ => False
  end →
  enabled e s = true → mode s = home.
Proof.
  destruct e; try done; simpl; rewrite andb_true_iff;
    intros _ [Hm _]; by destruct (mode s).
Qed.

Lemma handle_Start (parsed : list QuestionRow) (s : State) :
  enabled Start s = true →
  handle parsed Start s =
    mkState (allQs s) (filtered s) (setId s) (domainFilter s) (diff s)
      0 0 [] [] quiz false (darkMode s).
Proof.
  intros [_ Hf]%enabled_Start. unfold handle, startQuiz.
  destruct (Nat.eqb_spec (length (filtered s)) 0) as [Hlen|Hlen];
    [by apply nil_length_inv in Hlen | done].
Qed.

Lemma run_reachable (parsed : list QuestionRow) (es : list Event) :
  ∀ s s', reachable parsed s → run parsed es s = Some s' →
          reachable parsed s'.
Proof.
  induction es as [|e es IH]; intros s s' Hs Hrun; simpl in Hrun.
  - by injection Hrun as <-.
  - destruct (enabled e s) eqn:He; [|done].
    eapply IH; [|done]. by constructor.
Qed.

(** The scenario of the specification: with the difficulty selection
    "easy" one question is left; answering "A" scores 1 and the next click
    ends the quiz.  On an empty dataset the Start control is disabled. *)
Example run_scenario :
  run [sample_single; sample_multi]
      [Loaded; SelectDifficulty "easy"; Start; ToggleOption "A"; Submit; Next]
      initial
    = Some (mkState [sample_single; sample_multi] [sample_single]
              "" "" "easy" 0 1 ["A"]
              [mkQuizHistory sample_single ["A"] true] results true false)
  ∧ run [] [Loaded; Start] initial = None
  ∧ mode (handle [] Start (handle [] Loaded initial)) = home.
Proof. by repeat split. Qed.

(** ** The selection is a set *)

Lemma toggleOption_NoDup (k : string) (s : State) :
  NoDup (selected s) → NoDup (selected (toggleOption k s)).
Proof.
  intros Hnd. unfold toggleOption. destruct (showAnswer s); [done|].
  simpl. match goal with |- NoDup (if ?c then _ else _) => destruct c end.
  - destruct (includes (selected s) k) eqn:Hk.
    + by apply NoDup_List_filter.
    + apply NoDup_app. split; [done|]. split; [|apply NoDup_singleton].
      intros x Hx ->%list_elem_of_singleton.
      by apply includes_not_elem_of in Hk.
  - apply NoDup_singleton.
Qed.

Lemma handle_NoDup (parsed : list QuestionRow) (e : Event) (s : State) :
  NoDup (selected s) → NoDup (selected (handle parsed e s)).
Proof.
  intros Hnd. destruct e; simpl; try done.
  - unfold startQuiz. destruct (Nat.eqb (length (filtered s)) 0); simpl;
      [done | constructor].
  - by apply toggleOption_NoDup.
  - unfold submitAnswer. destruct (current s); [|done].
    by destruct (Nat.eqb (length (selected s)) 0).
  - unfold nextQuestion.
    destruct (Nat.leb (length (filtered s)) (currentIdx s + 1)); simpl;
      [done | constructor].
  - constructor.
Qed.

Lemma reachable_NoDup (parsed : list QuestionRow) (s : State) :
  reachable parsed s → NoDup (selected s).
Proof.
  induction 1 as [|e s _ IH _]; [constructor | by apply handle_NoDup].
Qed.

(** C9. In every state of a run the selection has no repeated letter.
    While the answer is not revealed, clicking letter [k] makes the
    selection the singleton of [k] when the current question is not of type
    "multi"; on a "multi" question it removes [k] when [k] is selected
    and appends it when it is not. *)
Theorem selection_is_set (parsed : list QuestionRow) (s : State) :
  reachable parsed s →
  NoDup (selected s)
  ∧ ∀ k cur,
      showAnswer s = false →
      current s = Some cur →
      (type cur ≠ "multi" → selected (toggleOption k s) = [k])
      ∧ (type cur = "multi" → k ∈ selected s →
           selected (toggleOption k s)
             = List.filter (fun i => negb (String.eqb i k)) (selected s)
           ∧ k ∉ selected (toggleOption k s))
      ∧ (type cur = "multi" → k ∉ selected s →
           selected (toggleOption k s) = selected s ++ [k]).
Proof.
  intros Hreach. split; [by eapply reachable_NoDup|].
  intros k cur Hshow Hcur. unfold toggleOption. rewrite Hshow, Hcur.
  split; [|split].
  - intros Hty%String.eqb_neq. by rewrite Hty.
  - intros Hty%String.eqb_eq Hk%includes_elem_of. rewrite Hty, Hk. simpl.
    split; [done|]. rewrite elem_of_List_filter.
    intros [_ Hne]. by rewrite String.eqb_refl in Hne.
  - intros Hty%String.eqb_eq Hk%includes_not_elem_of. by rewrite Hty, Hk.
Qed.

Lemma multi_example_reachable :
  reachable [sample_single; sample_multi] multi_example.
Proof.
  apply (run_reachable _
           [Loaded; SelectDifficulty "hard"; Start; ToggleOption "B";
            ToggleOption "C"] initial); [constructor | reflexivity].
Qed.

Lemma selection_is_set_witness :
  NoDup (selected multi_example)
  ∧ selected (toggleOption "B" multi_example) = ["C"]
  ∧ selected (toggleOption "A" multi_example) = ["B"; "C"; "A"].
Proof.
  destruct (selection_is_set [sample_single; sample_multi] multi_example
              multi_example_reachable) as [Hnd Htoggle].
  split; [exact Hnd|]. split.
  - destruct (Htoggle "B" sample_multi eq_refl eq_refl) as (_ & Hdel & _).
    apply Hdel; [reflexivity|]. apply elem_of_cons. by left.
  - destruct (Htoggle "A" sample_multi eq_refl eq_refl) as (_ & _ & Hadd).
    apply Hadd; [reflexivity|]. apply (bool_decide_unpack _).
    vm_compute. exact I.
Defined.

(** ** Score and history *)

Lemma countOk_snoc (h : list QuizHistory) (x : QuizHistory) :
  countOk (h ++ [x]) = countOk h + (if ok x then 1 else 0).
Proof.
  unfold countOk. rewrite List.filter_app, length_app. simpl.
  by destruct (ok x).
Qed.

Lemma submitsSince_cons (n : nat) (e : Event) (es : list Event) :
  submitsSince n (e :: es) = submitsSince (submitsSince n [e]) es.
Proof. by destruct e. Qed.

(** One enabled event keeps the score equal to the number of correct
    entries and moves the history length as [submitsSince] counts. *)
Lemma handle_counts (parsed : list QuestionRow) (e : Event) (s : State) :
  score s = countOk (history s) →
  enabled e s = true →
  score (handle parsed e s) = countOk (history (handle parsed e s))
  ∧ length (history (handle parsed e s))
    = submitsSince (length (history s)) [e].
Proof.
  intros Hscore He. destruct e; try done.
  - by rewrite (handle_Start parsed s He).
  - unfold handle, toggleOption. by destruct (showAnswer s).
  - apply enabled_Submit in He as (_ & [cur Hcur] & _ & Hsel).
    unfold handle. rewrite (submitAnswer_unfold s cur Hcur Hsel). simpl.
    rewrite countOk_snoc, length_app. simpl. split; lia.
  - unfold handle, nextQuestion.
    by destruct (Nat.leb (length (filtered s)) (currentIdx s + 1)).
Qed.

Lemma run_counts (parsed : list QuestionRow) (es : list Event) :
  ∀ s s',
    score s = countOk (history s) →
    run parsed es s = Some s' →
    score s' = countOk (history s')
    ∧ length (history s') = submitsSince (length (history s)) es.
Proof.
  induction es as [|e es IH]; intros s s' Hscore Hrun.
  - simpl in Hrun. by injection Hrun as <-.
  - cbn [run] in Hrun. destruct (enabled e s) eqn:He; [|done].
    destruct (handle_counts parsed e s Hscore He) as [Hscore' Hlen].
    rewrite submitsSince_cons, <- Hlen. by apply IH.
Qed.

(** C3. At the end of every run from the initial state, the score is the
    number of history entries flagged correct, and the history has one
    entry per [Submit] of the run since its last [Start] or [Reset]. *)
Theorem score_counts_history
    (parsed : list QuestionRow) (es : list Event) (s : State) :
  run parsed es initial = Some s →
  score s = countOk (history s)
  ∧ length (history s) = submitsSince 0 es.
Proof. intros Hrun. by apply (run_counts parsed es initial s). Qed.

Lemma score_counts_history_witness :
  score revealed_example = countOk (history revealed_example)
  ∧ length (history revealed_example)
    = submitsSince 0 [Loaded; Start; ToggleOption "A"; Submit].
Proof.
  apply (score_counts_history [sample_single]
           [Loaded; Start; ToggleOption "A"; Submit] revealed_example).
  reflexivity.
Defined.

(** The same holds of every state that a run reaches. *)
Lemma reachable_score (parsed : list QuestionRow) (s : State) :
  reachable parsed s → score s = countOk (history s).
Proof.
  induction 1 as [|e s _ IH He]; [done|].
  by destruct (handle_counts parsed e s IH He).
Qed.

(** ** The index stays in range *)

Lemma coherent_initial (parsed : list QuestionRow) : coherent parsed initial.
Proof. repeat split; [by left | done]. Qed.

Lemma coherent_handle (parsed : list QuestionRow) (e : Event) (s : State) :
  coherent parsed s → enabled e s = true → coherent parsed (handle parsed e s).
Proof.
  intros (Hfilt & Hall & Hidx) He.
  destruct e;
    try (apply enabled_home_only in He as Hhome; [|done]).
  - (* Loaded *)
    repeat split; [by right|]. simpl. intros Hq. specialize (Hidx Hq).
    destruct Hall as [Hnil|Hload].
    + rewrite Hfilt, Hnil in Hidx. simpl in Hidx. lia.
    + by rewrite <- Hload, <- Hfilt.
  - (* ToggleDark *) done.
  - (* SelectSet *) repeat split; [done|]. simpl. by rewrite Hhome.
  - (* SelectDomain *) repeat split; [done|]. simpl. by rewrite Hhome.
  - (* SelectDifficulty *) repeat split; [done|]. simpl. by rewrite Hhome.
  - (* Start *)
    rewrite (handle_Start parsed s He). repeat split; [done..|].
    simpl. intros _. apply enabled_Start in He as [_ Hne].
    destruct (filtered s); [done | simpl; lia].
  - (* ToggleOption *)
    unfold handle, toggleOption. by destruct (showAnswer s).
  - (* Submit *)
    unfold handle, submitAnswer. destruct (current s); [|done].
    by destruct (Nat.eqb (length (selected s)) 0).
  - (* Next *)
    unfold handle, nextQuestion.
    destruct (Nat.leb_spec (length (filtered s)) (currentIdx s + 1)).
    + by repeat split.
    + repeat split; [done..|]. simpl. lia.
  - (* Reset *) by repeat split.
  - (* ViewReview *) by repeat split.
Qed.

Lemma reachable_coherent (parsed : list QuestionRow) (s : State) :
  reachable parsed s → coherent parsed s.
Proof.
  induction 1 as [|e s _ IH He];
    [apply coherent_initial | by apply coherent_handle].
Qed.

(** C4. In [quiz] mode with the answer revealed, [nextQuestion] enters
    [results] when the index plus one reaches the length of the filtered
    list, and otherwise moves to the next index with an empty selection and
    the reveal flag cleared; and no state of a run is in [quiz] mode with
    its index at or beyond the length of the filtered list. *)
Theorem nextQuestion_spec (parsed : list QuestionRow) (s : State) :
  (mode s = quiz → showAnswer s = true →
     ((length (filtered s) ≤ currentIdx s + 1)%nat →
        nextQuestion s =
          mkState (allQs s) (filtered s) (setId s) (domainFilter s) (diff s)
            (currentIdx s) (score s) (selected s) (history s) results
            (showAnswer s) (darkMode s))
     ∧ ((currentIdx s + 1 < length (filtered s))%nat →
        nextQuestion s =
          mkState (allQs s) (filtered s) (setId s) (domainFilter s) (diff s)
            (currentIdx s + 1) (score s) [] (history s) quiz false
            (darkMode s)))
  ∧ (reachable parsed s → mode s = quiz →
       (currentIdx s < length (filtered s))%nat).
Proof.
  split.
  - intros Hm Hs. unfold nextQuestion.
    destruct (Nat.leb_spec (length (filtered s)) (currentIdx s + 1)).
    + split; [done | lia].
    + split; [lia|]. intros _. unfold setShowAnswer, setSel, setIdx. simpl.
      by rewrite Hm.
  - intros Hreach. by destruct (reachable_coherent parsed s Hreach) as (_ & _ & ?).
Qed.

Lemma nextQuestion_spec_witness :
  nextQuestion revealed_example =
    mkState [sample_single] [sample_single] "" "" "" 0 1 ["A"]
      [mkQuizHistory sample_single ["A"] true] results true false
  ∧ nextQuestion two_revealed_example =
      mkState [sample_single; sample_multi] [sample_single; sample_multi]
        "" "" "" 1 1 [] [mkQuizHistory sample_single ["A"] true] quiz false
        false
  ∧ (currentIdx revealed_example < length (filtered revealed_example))%nat.
Proof.
  split; [|split].
  - apply (nextQuestion_spec [] revealed_example); [done..|]. simpl. lia.
  - apply (nextQuestion_spec [] two_revealed_example); [done..|]. simpl. lia.
  - apply (nextQuestion_spec [sample_single] revealed_example); [|done].
    apply (run_reachable _ [Loaded; Start; ToggleOption "A"; Submit] initial);
      [constructor | reflexivity].
Defined.

(** ** Option lists *)

Lemma distinct_from_elem_of (arr seen : list string) (x : string) :
  x ∈ distinct_from seen arr ↔ x ∈ arr ∧ x ∉ seen.
Proof.
  revert seen. induction arr as [|y arr IH]; intros seen; simpl.
  - rewrite elem_of_nil. tauto.
  - destruct (includes seen y) eqn:Hy.
    + apply includes_elem_of in Hy. rewrite IH, elem_of_cons.
      split; [tauto|]. intros [[->|Hx] Hseen]; tauto.
    + apply includes_not_elem_of in Hy.
      rewrite !elem_of_cons, IH, elem_of_cons.
      destruct (decide (x = y)) as [->|Hne]; tauto.
Qed.

Lemma distinct_from_NoDup (arr seen : list string) :
  NoDup (distinct_from seen arr).
Proof.
  revert seen. induction arr as [|y arr IH]; intros seen; simpl.
  - constructor.
  - destruct (includes seen y); [done|]. constructor; [|done].
    rewrite distinct_from_elem_of, elem_of_cons. tauto.
Qed.

Lemma sort_distinct_spec (f : QuestionRow → string) (qs : list QuestionRow) :
  sorted_distinct_values f qs (sort (distinct (List.map f qs))).
Proof.
  unfold sorted_distinct_values, sort, distinct. split; [|split].
  - apply (Sorted_merge_sort _).
  - rewrite merge_sort_Permutation. apply distinct_from_NoDup.
  - intros v. rewrite merge_sort_Permutation, distinct_from_elem_of.
    rewrite list_elem_of_In, in_map_iff.
    setoid_rewrite <- list_elem_of_In. rewrite elem_of_nil.
    split.
    + intros [(row & Hf & Hrow) _]. by exists row.
    + intros (row & Hrow & Hf). split; [by exists row | tauto].
Qed.

Lemma sorted_distinct_values_unique
    (f : QuestionRow → string) (qs : list QuestionRow) (l1 l2 : list string) :
  sorted_distinct_values f qs l1 → sorted_distinct_values f qs l2 → l1 = l2.
Proof.
  intros (Hs1 & Hn1 & Hm1) (Hs2 & Hn2 & Hm2).
  apply (Sorted_unique String.le); [done..|].
  apply NoDup_Permutation; [done..|]. intros v. by rewrite Hm1, Hm2.
Qed.

(** The list of difficulties is written in the component; it is neither
    what the dataset contains nor in sorted order. *)
Lemma difficultyOptions_not_derived :
  ¬ sorted_distinct_values difficulty [sample_single] difficultyOptions
  ∧ ¬ sorted_distinct_values difficulty
        [sample_single; sample_multi; sample_repeated] difficultyOptions
  ∧ sort (distinct (List.map difficulty
        [sample_single; sample_multi; sample_repeated]))
    = ["easy"; "hard"; "medium"].
Proof.
  split; [|split].
  - intros (_ & _ & Hmem).
    destruct (proj1 (Hmem "medium")) as (row & Hrow & Hd).
    + apply (bool_decide_unpack _). vm_compute. exact I.
    + apply list_elem_of_singleton in Hrow as ->. discriminate Hd.
  - intros (Hsorted & _). revert Hsorted.
    apply (proj1 (bool_decide_eq_false _)). vm_compute. reflexivity.
  - vm_compute. reflexivity.
Qed.

(** C7 (as the code has it). For the set identifier and for the domain,
    the option list is the sorted list of the distinct values of the field
    in the full dataset, and it is the only such list; it does not change
    with the filter selection.  The list of difficulties is the fixed list
    easy, medium, hard. *)
Theorem options_spec (s : State) :
  sorted_distinct_values set_id (allQs s) (setOptions s)
  ∧ sorted_distinct_values domain (allQs s) (domainOptions s)
  ∧ (∀ l, sorted_distinct_values set_id (allQs s) l → setOptions s = l)
  ∧ (∀ l, sorted_distinct_values domain (allQs s) l → domainOptions s = l)
  ∧ (∀ sid dom dif,
       let s' := applyFilters (setDiff dif (setDomain dom (setSetId sid s))) in
       setOptions s' = setOptions s ∧ domainOptions s' = domainOptions s)
  ∧ difficultyOptions = ["easy"; "medium"; "hard"].
Proof.
  repeat split; try apply sort_distinct_spec.
  - intros l Hl. eapply sorted_distinct_values_unique; [|done].
    apply sort_distinct_spec.
  - intros l Hl. eapply sorted_distinct_values_unique; [|done].
    apply sort_distinct_spec.
Qed.

Lemma options_spec_witness :
  setOptions
    (setAll [sample_repeated; sample_single; sample_multi] initial)
  = ["A"; "B"].
Proof.
  apply (options_spec
           (setAll [sample_repeated; sample_single; sample_multi] initial)).
  split; [|split].
  - apply (bool_decide_unpack _). vm_compute. exact I.
  - apply (bool_decide_unpack _). vm_compute. exact I.
  - intros v. simpl. rewrite !elem_of_cons, !elem_of_nil. split.
    + intros [->|[->|[]]];
        [exists sample_single | exists sample_repeated];
        (split; [|reflexivity]); rewrite !elem_of_cons; tauto.
    + intros (row & Hrow & <-).
      rewrite !elem_of_cons, elem_of_nil in Hrow.
      destruct Hrow as [->|[->|[->|[]]]]; simpl; tauto.
Defined.

(** * Further properties of the component *)

(** ** Splitting the correct-answer spec *)

Lemma split_on_not_nil (sep : ascii) (s : string) : split_on sep s ≠ [].
Proof.
  destruct s as [|c s]; simpl; [done|].
  destruct (Ascii.eqb c sep); [done|]. by destruct (split_on sep s).
Qed.

Lemma split_on_concat (sep : ascii) (s : string) :
  String.concat (String sep "") (split_on sep s) = s.
Proof.
  induction s as [|c s IH]; simpl; [done|].
  destruct (Ascii.eqb_spec c sep) as [->|Hne].
  - pose proof (split_on_not_nil sep s) as Hnil.
    destruct (split_on sep s) as [|t ts]; [done|].
    simpl in *. by rewrite IH.
  - destruct (split_on sep s) as [|t ts] eqn:Hsplit.
    + by destruct (split_on_not_nil sep s).
    + destruct ts as [|t' ts]; simpl in *; by rewrite <- IH.
Qed.

Lemma split_on_tokens (sep : ascii) (s t : string) :
  t ∈ split_on sep s → sep ∉ list_ascii_of_string t.
Proof.
  revert t. induction s as [|c s IH]; intros t; simpl.
  - intros ->%list_elem_of_singleton. apply not_elem_of_nil.
  - destruct (Ascii.eqb_spec c sep) as [->|Hne].
    + intros [->|Ht]%elem_of_cons; [apply not_elem_of_nil | by apply IH].
    + destruct (split_on sep s) as [|t' ts].
      * intros ->%list_elem_of_singleton. simpl.
        rewrite elem_of_cons, elem_of_nil. intros [?|[]]. by apply Hne.
      * intros [->|Ht]%elem_of_cons.
        -- simpl. rewrite elem_of_cons. intros [?|Hin]; [by apply Hne|].
           revert Hin. apply IH, elem_of_cons. by left.
        -- apply IH, elem_of_cons. by right.
Qed.

Lemma split_on_length (sep : ascii) (s : string) :
  length (split_on sep s)
  = S (length (List.filter (fun c => Ascii.eqb c sep)
                 (list_ascii_of_string s))).
Proof.
  induction s as [|c s IH]; simpl; [done|].
  destruct (Ascii.eqb c sep); simpl; [by rewrite IH|].
  pose proof (split_on_not_nil sep s) as Hnil.
  destruct (split_on sep s); [done | by rewrite <- IH].
Qed.

Lemma split_on_no_sep (sep : ascii) (s : string) :
  sep ∉ list_ascii_of_string s → split_on sep s = [s].
Proof.
  induction s as [|c s IH]; simpl; [done|].
  rewrite elem_of_cons. intros Hno.
  destruct (Ascii.eqb_spec c sep) as [->|Hne]; [tauto|].
  rewrite IH; tauto.
Qed.

(** X1. Splitting loses nothing: the tokens joined by the separator give
    the string back; no token holds the separator; there is one token more
    than there are separators in the string (so never none). *)
Theorem split_on_roundtrip (sep : ascii) (s : string) :
  String.concat (String sep "") (split_on sep s) = s
  ∧ (∀ t, t ∈ split_on sep s → sep ∉ list_ascii_of_string t)
  ∧ length (split_on sep s)
    = S (length (List.filter (fun c => Ascii.eqb c sep)
                   (list_ascii_of_string s))).
Proof.
  split; [apply split_on_concat|].
  split; [intros t; apply split_on_tokens | apply split_on_length].
Qed.

Lemma split_on_roundtrip_witness :
  ";"%char ∉ list_ascii_of_string "B".
Proof.
  apply (proj1 (proj2 (split_on_roundtrip ";" "B;C")) "B"). simpl.
  apply elem_of_cons. by left.
Defined.

(** ** Scoring, further *)

Lemma ok_test_permutation (chosen chosen' corr : list string) :
  chosen ≡ₚ chosen' →
  Nat.eqb (length chosen) (length corr)
  && every (fun x => includes corr x) chosen
  = Nat.eqb (length chosen') (length corr)
    && every (fun x => includes corr x) chosen'.
Proof.
  intros Hperm. apply eq_true_iff_eq. rewrite !ok_test_spec.
  rewrite (Permutation_length Hperm).
  by setoid_rewrite Hperm.
Qed.

(** X2. The order in which the letters were selected does not count: two
    selections that are rearrangements of one another are recorded with the
    same flag and give the same score. *)
Theorem submitAnswer_order (s : State) (chosen : list string) :
  selected s ≡ₚ chosen →
  List.map ok (history (submitAnswer (setSel chosen s)))
    = List.map ok (history (submitAnswer s))
  ∧ score (submitAnswer (setSel chosen s)) = score (submitAnswer s).
Proof.
  intros Hperm.
  destruct (current s) as [cur|] eqn:Hcur; unfold current in Hcur;
    [|by unfold submitAnswer, current; simpl; rewrite Hcur].
  destruct (decide (selected s = [])) as [Hnil|Hsel].
  - rewrite Hnil in Hperm. apply Permutation_nil_l in Hperm as <-.
    unfold submitAnswer, current. simpl. by rewrite Hcur, Hnil.
  - assert (chosen ≠ []) as Hsel'.
    { intros ->. by apply Permutation_nil_r in Hperm. }
    rewrite (submitAnswer_unfold s cur Hcur Hsel).
    rewrite (submitAnswer_unfold (setSel chosen s) cur Hcur Hsel'). simpl.
    rewrite (ok_test_permutation _ _ _ Hperm).
    by rewrite !List.map_app.
Qed.

Lemma submitAnswer_order_witness :
  List.map ok (history (submitAnswer (setSel ["C"; "B"] multi_example)))
    = List.map ok (history (submitAnswer multi_example)).
Proof.
  apply (submitAnswer_order multi_example ["C"; "B"]).
  simpl. apply Permutation_swap.
Defined.

(** X3. On a question whose correct-answer spec holds no ";", the answer
    is recorded as correct exactly when the selection is that one spec. *)
Theorem submitAnswer_single_token (s : State) (cur : QuestionRow) :
  current s = Some cur →
  selected s ≠ [] →
  ";"%char ∉ list_ascii_of_string (correct cur) →
  ∃ b : bool,
    submitAnswer s =
      setShowAnswer true
        (setHist (history s ++ [mkQuizHistory cur (selected s) b])
           (setScore (score s + (if b then 1 else 0)) s))
    ∧ (b = true ↔ selected s = [correct cur]).
Proof.
  intros Hcur Hsel Hno. eexists. split; [by apply submitAnswer_unfold|].
  rewrite ok_test_spec, (split_on_no_sep _ _ Hno). simpl. split.
  - intros [Hlen Hin]. destruct (selected s) as [|x [|y l]]; try done.
    f_equal. apply list_elem_of_singleton, Hin, elem_of_cons. by left.
  - intros ->. split; [done|]. by intros x.
Qed.

Lemma submitAnswer_single_token_witness :
  ∃ b : bool,
    submitAnswer (setSel ["A"] (setShowAnswer false revealed_example)) =
      setShowAnswer true
        (setHist [mkQuizHistory sample_single ["A"] true;
                  mkQuizHistory sample_single ["A"] b]
           (setScore (1 + (if b then 1 else 0)) revealed_example))
    ∧ (b = true ↔ ["A"] = ["A"]).
Proof.
  destruct (submitAnswer_single_token
              (setSel ["A"] (setShowAnswer false revealed_example))
              sample_single) as (b & Heq & Hb).
  - reflexivity.
  - discriminate.
  - apply (bool_decide_unpack _). vm_compute. exact I.
  - exists b. split; [exact Heq | exact Hb].
Defined.

(** ** Loading and the badge colours *)

Lemma truthy_true (v : string) : truthy v = true ↔ v ≠ "".
Proof. by destruct v. Qed.

(** X4. [parseCsv] keeps exactly the parsed rows whose question is not
    empty, each as often as it occurs and in their order: its result is a
    subsequence of the parsed rows made of rows with a question, and every
    such subsequence is a subsequence of it; a second pass changes
    nothing. *)
Theorem parseCsv_spec (parsed : list QuestionRow) :
  (∀ row, row ∈ parseCsv parsed ↔ row ∈ parsed ∧ question row ≠ "")
  ∧ parseCsv parsed `sublist_of` parsed
  ∧ (∀ l,
       l `sublist_of` parsed →
       (∀ row, row ∈ l → question row ≠ "") →
       l `sublist_of` parseCsv parsed)
  ∧ length (parseCsv parsed)
    = length (List.filter (fun row => negb (String.eqb (question row) ""))
                parsed)
  ∧ parseCsv (parseCsv parsed) = parseCsv parsed.
Proof.
  unfold parseCsv. split; [|split; [|split; [|split]]].
  - intros row. by rewrite elem_of_List_filter, truthy_true.
  - apply sublist_List_filter.
  - intros l Hsub Hall. apply sublist_List_filter_max; [done|].
    intros row Hrow. by apply truthy_true, Hall.
  - f_equal. apply List.filter_ext. intros row. by destruct (question row).
  - induction parsed as [|row l IH]; simpl; [done|].
    destruct (truthy (question row)) eqn:Hq; simpl; [|done].
    by rewrite Hq, IH.
Qed.

Lemma parseCsv_spec_witness :
  [sample_single; sample_single]
    `sublist_of` parseCsv [sample_single; sample_blank; sample_single].
Proof.
  apply (parseCsv_spec [sample_single; sample_blank; sample_single]).
  - apply sublist_skip, sublist_cons, sublist_skip, sublist_nil.
  - intros row. rewrite !elem_of_cons, elem_of_nil.
    intros [->|[->|[]]]; discriminate.
Defined.

(** A row that occurs twice is kept twice. *)
Example parseCsv_keeps_copies :
  parseCsv [sample_single; sample_single] = [sample_single; sample_single].
Proof. reflexivity. Qed.

(** X5. Every difficulty that the filter offers has a badge colour of its
    own; every other value, also one that differs by case only, gets the
    muted colour. *)
Theorem getDifficultyColor_spec (d : string) :
  (getDifficultyColor d = "bg-muted text-muted-foreground"
   ↔ d ∉ difficultyOptions)
  ∧ (∀ d', d ∈ difficultyOptions → d' ∈ difficultyOptions →
           getDifficultyColor d = getDifficultyColor d' → d = d').
Proof.
  unfold getDifficultyColor, difficultyOptions. split.
  - rewrite !elem_of_cons, elem_of_nil.
    destruct (String.eqb_spec d "easy") as [->|H1];
      [split; [done | intros []; by left]|].
    destruct (String.eqb_spec d "medium") as [->|H2];
      [split; [done | intros []; right; by left]|].
    destruct (String.eqb_spec d "hard") as [->|H3];
      [split; [done | intros []; right; right; by left]|].
    split; [intros _; tauto | done].
  - intros d'. rewrite !elem_of_cons, !elem_of_nil.
    intros [->|[->|[->|[]]]] [->|[->|[->|[]]]]; done.
Qed.

Lemma getDifficultyColor_spec_witness :
  "hard" = "hard" ∧ getDifficultyColor "Easy" = "bg-muted text-muted-foreground".
Proof.
  split.
  - apply (proj2 (getDifficultyColor_spec "hard") "hard"); try reflexivity;
      apply (bool_decide_unpack _); vm_compute; exact I.
  - apply (proj2 (proj1 (getDifficultyColor_spec "Easy"))).
    apply (bool_decide_unpack _). vm_compute. exact I.
Defined.

(** ** Steps of a run *)

Lemma Mode_eqb_eq (a b : Mode) : Mode_eqb a b = true ↔ a = b.
Proof. by destruct a, b. Qed.

Lemma enabled_Next (s : State) :
  enabled Next s = true → mode s = quiz ∧ showAnswer s = true.
Proof.
  simpl. rewrite !andb_true_iff, Mode_eqb_eq. tauto.
Qed.

Lemma reachable_settled (parsed : list QuestionRow) (s : State) :
  reachable parsed s → settled parsed s.
Proof.
  induction 1 as [|e s _ (Hco & Hne & Hcov) He].
  - split; [apply coherent_initial | by split].
  - split; [by apply coherent_handle|].
    destruct e;
      try (apply enabled_home_only in He as Hhome; [|done]).
    + (* Loaded *)
      split; [|done]. simpl. intros Hm. specialize (Hne Hm).
      destruct Hco as (Hfilt & [Hnil|Hload] & _).
      * by rewrite Hfilt, Hnil in Hne.
      * by rewrite <- Hload, <- Hfilt.
    + (* ToggleDark *) done.
    + (* SelectSet *) split; simpl; by rewrite Hhome.
    + (* SelectDomain *) split; simpl; by rewrite Hhome.
    + (* SelectDifficulty *) split; simpl; by rewrite Hhome.
    + (* Start *)
      rewrite (handle_Start parsed s He).
      apply enabled_Start in He as [_ Hf]. by split.
    + (* ToggleOption *)
      unfold handle, toggleOption. by destruct (showAnswer s).
    + (* Submit *)
      unfold handle, submitAnswer. destruct (current s); [|done].
      by destruct (Nat.eqb (length (selected s)) 0).
    + (* Next *)
      apply enabled_Next in He as [Hm _].
      assert (filtered s ≠ []) by (apply Hne; by rewrite Hm).
      unfold handle, nextQuestion.
      destruct (Nat.leb (length (filtered s)) (currentIdx s + 1));
        by split.
    + (* Reset *) by split.
    + (* ViewReview *)
      simpl in He. apply Mode_eqb_eq in He.
      assert (filtered s ≠ []) by (apply Hne; by rewrite He).
      by split.
Qed.

(** Once a quiz has started, the data have arrived: the arrival of the
    same rows once more changes nothing. *)
Lemma handle_Loaded_fixed (parsed : list QuestionRow) (s : State) :
  settled parsed s → mode s ≠ home → handle parsed Loaded s = s.
Proof.
  intros ((Hfilt & Hall & _) & Hne & _) Hm. specialize (Hne Hm).
  destruct Hall as [Hnil|Hload]; [by rewrite Hfilt, Hnil in Hne|].
  unfold handle, applyFilters, setFiltered, setAll. simpl.
  rewrite <- Hload, <- Hfilt. by destruct s.
Qed.

Lemma toggleOption_setSel (k : string) (s : State) :
  toggleOption k s = setSel (selected (toggleOption k s)) s.
Proof.
  unfold toggleOption. destruct (showAnswer s); [by destruct s | done].
Qed.

Lemma handle_step (parsed : list QuestionRow) (e : Event) (s : State) :
  settled parsed s → enabled e s = true → step s (handle parsed e s).
Proof.
  intros Hset He.
  destruct e;
    try (apply enabled_home_only in He as Hhome; [|done]).
  - (* Loaded *)
    destruct (mode s) eqn:Hm;
      [by apply step_config
      |rewrite handle_Loaded_fixed by (done || by rewrite Hm);
       by apply step_idle ..].
  - (* ToggleDark *) by apply step_idle.
  - (* SelectSet *) by apply step_config.
  - (* SelectDomain *) by apply step_config.
  - (* SelectDifficulty *) by apply step_config.
  - (* Start *)
    rewrite (handle_Start parsed s He).
    apply enabled_Start in He as [Hm Hf]. by apply step_start.
  - (* ToggleOption *)
    simpl in He. apply andb_true_iff in He as [Hm Hrow].
    destruct (current s) as [cur|] eqn:Hcur; [|done].
    destruct (optionText k cur) as [text|] eqn:Htext; [|done].
    destruct (showAnswer s) eqn:Hshow.
    + unfold handle, toggleOption. rewrite Hshow. by apply step_idle.
    + apply (step_toggle s k cur text); try done. by destruct (mode s).
  - (* Submit *)
    apply enabled_Submit in He as (Hm & [cur Hcur] & Hshow & Hsel).
    by apply (step_submit s cur).
  - (* Next *)
    apply enabled_Next in He as [Hm Hshow].
    unfold handle, nextQuestion.
    destruct (Nat.leb_spec (length (filtered s)) (currentIdx s + 1)).
    + by apply step_next_last.
    + by apply step_next.
  - (* Reset *)
    apply step_reset. intros Hm. simpl in He. by rewrite Hm in He.
  - (* ViewReview *)
    apply step_review. simpl in He. by destruct (mode s).
Qed.

(** Induction over runs, by the shape of the last step. *)
Lemma reachable_step_ind (parsed : list QuestionRow) (P : State → Prop) :
  P initial →
  (∀ s s', reachable parsed s → P s → step s s' → P s') →
  ∀ s, reachable parsed s → P s.
Proof.
  intros Hinit Hstep s. induction 1 as [|e s Hreach IH He]; [done|].
  eapply Hstep; [done..|].
  apply handle_step; [by apply reachable_settled | done].
Qed.

Ltac same_cells H :=
  let Hi := fresh "Hidx" in
  let Hsc := fresh "Hscore" in
  let Hse := fresh "Hsel" in
  let Hh := fresh "Hhist" in
  let Hmo := fresh "Hmode" in
  let Hsh := fresh "Hshow" in
  destruct H as (Hi & Hsc & Hse & Hh & Hmo & Hsh);
  unfold current; rewrite ?Hi, ?Hsc, ?Hse, ?Hh, ?Hmo, ?Hsh.

(** ** The session cells along a run *)

Lemma reachable_home (parsed : list QuestionRow) (s : State) :
  reachable parsed s →
  mode s = home →
  currentIdx s = 0 ∧ score s = 0 ∧ selected s = [] ∧ history s = []
  ∧ showAnswer s = false.
Proof.
  revert s. refine (reachable_step_ind parsed _ _ _); [done|].
  intros s s' _ IH Hstep.
  destruct Hstep as [s s' Hsame _|s s' _ Hsame|s| s k cur text Hm| s cur Hm
                    |s|s Hm|s|s]; try done.
  - by same_cells Hsame.
  - by same_cells Hsame.
  - rewrite toggleOption_setSel. simpl. by rewrite Hm.
  - unfold submitAnswer. destruct (current s); [|by rewrite Hm].
    destruct (Nat.eqb (length (selected s)) 0); simpl; by rewrite Hm.
  - simpl. by rewrite Hm.
Qed.

Lemma reachable_progress (parsed : list QuestionRow) (s : State) :
  reachable parsed s →
  (mode s = quiz →
     length (history s) = currentIdx s + (if showAnswer s then 1 else 0))
  ∧ (mode s = results ∨ mode s = review →
     length (history s) = length (filtered s) ∧ showAnswer s = true).
Proof.
  revert s. refine (reachable_step_ind parsed _ _ _);
    [by split; [|intros [|]]|].
  intros s s' Hreach [IHq IHr] Hstep.
  pose proof (reachable_coherent parsed s Hreach) as (_ & _ & Hrange).
  destruct Hstep as [s s' Hsame Hfilt|s s' Hhome Hsame|s
                    |s k cur text Hm Hshow|s cur Hm Hshow Hcur Hsel
                    |s Hm Hshow Hlast|s Hm Hshow Hmore|s|s Hm].
  - rewrite Hfilt. by same_cells Hsame.
  - same_cells Hsame. rewrite Hhome. by split; [|intros [|]].
  - by split; [|intros [|]].
  - rewrite toggleOption_setSel. simpl. by split.
  - rewrite (submitAnswer_unfold s cur Hcur Hsel). simpl.
    rewrite length_app, Hm. simpl. split; [|by intros [|]].
    intros _. rewrite (IHq Hm), Hshow. lia.
  - simpl. split; [done|]. intros _. specialize (IHq Hm).
    specialize (Hrange Hm). rewrite Hshow in IHq. split; [lia | done].
  - simpl. rewrite Hm. split; [|by intros [|]].
    intros _. rewrite (IHq Hm), Hshow. lia.
  - by split; [|intros [|]].
  - simpl. split; [done|]. intros _. apply IHr. by left.
Qed.

Lemma reachable_history_questions (parsed : list QuestionRow) (s : State) :
  reachable parsed s →
  List.map q (history s) = take (length (history s)) (filtered s).
Proof.
  revert s. refine (reachable_step_ind parsed _ _ _); [done|].
  intros s s' Hreach IH Hstep.
  destruct Hstep as [s s' Hsame Hfilt|s s' Hhome Hsame|s
                    |s k cur text Hm Hshow|s cur Hm Hshow Hcur Hsel
                    |s|s|s|s]; try done.
  - rewrite Hfilt. by same_cells Hsame.
  - same_cells Hsame.
    by destruct (reachable_home parsed s Hreach Hhome) as (_ & _ & _ & -> & _).
  - by rewrite toggleOption_setSel.
  - rewrite (submitAnswer_unfold s cur Hcur Hsel). simpl.
    rewrite List.map_app, length_app, IH. simpl.
    destruct (reachable_progress parsed s Hreach) as [Hlen _].
    rewrite (Hlen Hm), Hshow, Nat.add_0_r, Nat.add_1_r.
    symmetry. by apply take_S_r.
Qed.

Lemma toggleOption_selected (k : string) (s : State) (cur : QuestionRow) :
  showAnswer s = false →
  current s = Some cur →
  selected (toggleOption k s) =
    if String.eqb (type cur) "multi"
    then (if includes (selected s) k
          then List.filter (fun i => negb (String.eqb i k)) (selected s)
          else selected s ++ [k])
    else [k].
Proof. intros Hshow Hcur. unfold toggleOption. by rewrite Hshow, Hcur. Qed.

Lemma reachable_selection (parsed : list QuestionRow) (s : State) :
  reachable parsed s →
  mode s = quiz →
  ∀ cur, current s = Some cur →
    (∀ k, k ∈ selected s →
          ∃ text, optionText k cur = Some text ∧ truthy text = true)
    ∧ (type cur ≠ "multi" → (length (selected s) ≤ 1)%nat).
Proof.
  revert s. refine (reachable_step_ind parsed _ _ _).
  { intros _ cur _. split; [by intros k ?%elem_of_nil | simpl; lia]. }
  intros s s' Hreach IH Hstep.
  destruct Hstep as [s s' Hsame Hfilt|s s' Hhome Hsame|s
                    |s k cur text Hm Hshow Hcur Htext Htruthy
                    |s cur Hm Hshow Hcur Hsel
                    |s|s Hm|s|s]; try done.
  - unfold current. rewrite Hfilt. by same_cells Hsame.
  - same_cells Hsame. by rewrite Hhome.
  - intros _ cur _. split; [by intros k ?%elem_of_nil | simpl; lia].
  - intros _ cur'. rewrite (toggleOption_selected k s cur Hshow Hcur).
    rewrite toggleOption_setSel.
    change (current (setSel _ s)) with (current s). rewrite Hcur.
    intros [= <-]. destruct (IH Hm cur Hcur) as [IHin IHlen].
    destruct (String.eqb_spec (type cur) "multi") as [Hty|Hty].
    + split; [|done]. destruct (includes (selected s) k).
      * intros k' [Hk' _]%elem_of_List_filter. by apply IHin.
      * intros k' [Hk'| ->%list_elem_of_singleton]%elem_of_app;
          [by apply IHin | by exists text].
    + split; [|simpl; lia].
      intros k' ->%list_elem_of_singleton. by exists text.
  - unfold submitAnswer. rewrite Hcur.
    destruct (Nat.eqb (length (selected s)) 0); [done|].
    intros _ cur'. change (current (setShowAnswer _ _)) with (current s).
    by apply IH.
  - intros _ cur _. split; [by intros k ?%elem_of_nil | simpl; lia].
Qed.

Lemma reachable_entries (parsed : list QuestionRow) (s : State) :
  reachable parsed s →
  ∀ h, h ∈ history s →
    sel h ≠ [] ∧ NoDup (sel h)
    ∧ ok h = Nat.eqb (length (sel h))
                (length (split_on ";" (correct (q h))))
             && every (fun x => includes (split_on ";" (correct (q h))) x)
                  (sel h)
    ∧ (∀ k, k ∈ sel h →
            ∃ text, optionText k (q h) = Some text ∧ truthy text = true)
    ∧ (type (q h) ≠ "multi" → length (sel h) = 1).
Proof.
  revert s. refine (reachable_step_ind parsed _ _ _).
  { by intros h ?%elem_of_nil. }
  intros s s' Hreach IH Hstep.
  destruct Hstep as [s s' Hsame Hfilt|s s' Hhome Hsame|s
                    |s k cur text|s cur Hm Hshow Hcur Hsel
                    |s|s|s|s]; try done.
  - by same_cells Hsame.
  - by same_cells Hsame.
  - by intros h ?%elem_of_nil.
  - by rewrite toggleOption_setSel.
  - rewrite (submitAnswer_unfold s cur Hcur Hsel). simpl.
    intros h [Hh| ->%list_elem_of_singleton]%elem_of_app; [by apply IH|].
    simpl. destruct (reachable_selection parsed s Hreach Hm cur Hcur)
      as [Hin Hlen].
    repeat split; try done.
    + by eapply reachable_NoDup.
    + intros Hty. specialize (Hlen Hty).
      destruct (selected s) as [|x [|y l]]; simpl in *; [done|done|lia].
  - by intros h ?%elem_of_nil.
Qed.

Lemma reachable_revealed (parsed : list QuestionRow) (s : State) :
  reachable parsed s →
  showAnswer s = true →
  ∃ h, last (history s) = Some h ∧ sel h = selected s
       ∧ (mode s = quiz → current s = Some (q h)).
Proof.
  intros Hreach. revert s Hreach.
  refine (reachable_step_ind parsed _ _ _); [done|].
  intros s s' Hreach IH Hstep.
  destruct Hstep as [s s' Hsame Hfilt|s s' Hhome Hsame|s
                    |s k cur text Hm Hshow|s cur Hm Hshow Hcur Hsel
                    |s Hm Hshow|s|s|s Hm]; try done.
  - unfold current. rewrite Hfilt. by same_cells Hsame.
  - same_cells Hsame.
    by destruct (reachable_home parsed s Hreach Hhome) as (_ & _ & _ & _ & ->).
  - rewrite toggleOption_setSel. simpl. by rewrite Hshow.
  - intros _. rewrite (submitAnswer_unfold s cur Hcur Hsel). simpl.
    eexists. split; [apply last_snoc|]. by split.
  - intros Hs. destruct (IH Hs) as (h & Hlast & Hh & _).
    exists h. by repeat split.
  - intros Hs. destruct (IH Hs) as (h & Hlast & Hh & _).
    exists h. by repeat split.
Qed.

(** ** Sample runs *)

Lemma revealed_example_reachable :
  reachable [sample_single] revealed_example.
Proof.
  apply (run_reachable _ [Loaded; Start; ToggleOption "A"; Submit] initial);
    [constructor | reflexivity].
Qed.

Lemma two_revealed_example_reachable :
  reachable [sample_single; sample_multi] two_revealed_example.
Proof.
  apply (run_reachable _ [Loaded; Start; ToggleOption "A"; Submit] initial);
    [constructor | reflexivity].
Qed.

Lemma results_example_reachable :
  reachable [sample_single; sample_multi] results_example.
Proof.
  apply (run_reachable _
           [Loaded; SelectDifficulty "easy"; Start; ToggleOption "A";
            Submit; Next] initial); [constructor | reflexivity].
Qed.

(** ** Dataset and filtered list along a run *)

(** X6. In every state of a run the stored filtered list is the filter of
    the dataset by the selections of that state (it is never stale); the
    dataset is empty or the loaded rows; the question on screen has a
    text; and once the quiz has left [home], the arrival of the same rows
    once more changes nothing. *)
Theorem reachable_dataset (parsed : list QuestionRow) (s : State) :
  reachable parsed s →
  filtered s
    = List.filter (keeps (setId s) (domainFilter s) (diff s)) (allQs s)
  ∧ (allQs s = [] ∨ allQs s = parseCsv parsed)
  ∧ (∀ cur, current s = Some cur → cur ∈ parsed ∧ question cur ≠ "")
  ∧ (mode s ≠ home → handle parsed Loaded s = s).
Proof.
  intros Hreach.
  pose proof (reachable_settled parsed s Hreach) as Hset.
  destruct (Hset) as ((Hfilt & Hall & _) & _).
  split; [done|]. split; [done|]. split; [|by apply handle_Loaded_fixed].
  intros cur Hcur%list_elem_of_lookup_2. rewrite Hfilt in Hcur.
  apply elem_of_List_filter in Hcur as [Hin _].
  destruct Hall as [Hnil|Hload];
    [rewrite Hnil in Hin; by apply elem_of_nil in Hin|].
  rewrite Hload in Hin. unfold parseCsv in Hin.
  apply elem_of_List_filter in Hin as [Hin Hq]. by apply truthy_true in Hq.
Qed.

Lemma reachable_dataset_witness :
  filtered multi_example = [sample_multi]
  ∧ question sample_multi ≠ ""
  ∧ handle [sample_single; sample_multi] Loaded multi_example = multi_example.
Proof.
  destruct (reachable_dataset [sample_single; sample_multi] multi_example
              multi_example_reachable) as (Hfilt & _ & Hcur & Hload).
  split; [exact Hfilt|]. split.
  - apply (Hcur sample_multi). reflexivity.
  - apply Hload. discriminate.
Defined.

(** ** Progress of a session *)

(** X7. In [quiz] mode the history has one entry per question before the
    current one, and one more once the current answer is revealed; in
    [results] and [review] it has one entry per question of the filtered
    list, and the answer stays revealed. *)
Theorem session_progress (parsed : list QuestionRow) (s : State) :
  reachable parsed s →
  (mode s = quiz →
     length (history s) = currentIdx s + (if showAnswer s then 1 else 0))
  ∧ (mode s = results ∨ mode s = review →
     length (history s) = length (filtered s) ∧ showAnswer s = true).
Proof. apply reachable_progress. Qed.

Lemma session_progress_witness :
  length (history two_revealed_example) = 0 + 1
  ∧ length (history results_example) = length (filtered results_example).
Proof.
  split.
  - apply (session_progress [sample_single; sample_multi]
             two_revealed_example two_revealed_example_reachable).
    reflexivity.
  - apply (session_progress [sample_single; sample_multi] results_example
             results_example_reachable). by left.
Defined.

(** X8. The history follows the filtered list: its entries are about the
    first questions of the list, in the order of the list, each once; in
    [results] and [review] they are about all of them. *)
Theorem history_follows_filtered (parsed : list QuestionRow) (s : State) :
  reachable parsed s →
  List.map q (history s) = take (length (history s)) (filtered s)
  ∧ (mode s = results ∨ mode s = review →
     List.map q (history s) = filtered s).
Proof.
  intros Hreach.
  pose proof (reachable_history_questions parsed s Hreach) as Hq.
  split; [done|]. intros Hm.
  destruct (reachable_progress parsed s Hreach) as [_ Hlen].
  destruct (Hlen Hm) as [Hl _]. rewrite Hq, Hl. by apply take_ge.
Qed.

Lemma history_follows_filtered_witness :
  List.map q (history results_example) = filtered results_example.
Proof.
  apply (history_follows_filtered [sample_single; sample_multi]
           results_example results_example_reachable). by left.
Defined.

(** X9. Whenever a run is at [home], the session cells are clear: index 0,
    score 0, nothing selected, empty history, nothing revealed. *)
Theorem home_is_clear (parsed : list QuestionRow) (s : State) :
  reachable parsed s →
  mode s = home →
  currentIdx s = 0 ∧ score s = 0 ∧ selected s = [] ∧ history s = []
  ∧ showAnswer s = false.
Proof. apply reachable_home. Qed.

Lemma home_is_clear_witness :
  let s := resetQuiz results_example in
  currentIdx s = 0 ∧ score s = 0 ∧ selected s = [] ∧ history s = []
  ∧ showAnswer s = false.
Proof.
  apply (home_is_clear [sample_single; sample_multi]
           (resetQuiz results_example)); [|reflexivity].
  apply (reachable_step _ Reset results_example);
    [apply results_example_reachable | reflexivity].
Defined.

Lemma filter_ok_split (h : list QuizHistory) :
  countOk h + length (List.filter (fun x => negb (ok x)) h) = length h.
Proof.
  unfold countOk. induction h as [|x h IH]; simpl; [done|].
  destruct (ok x); simpl; lia.
Qed.

(** X10. The score never exceeds the number of answers given, which never
    exceeds the number of questions of the quiz; on the results screen the
    figure shown as incorrect, the length of the filtered list minus the
    score, is the number of history entries flagged incorrect. *)
Theorem score_bounds (parsed : list QuestionRow) (s : State) :
  reachable parsed s →
  (score s ≤ length (history s))%nat
  ∧ (length (history s) ≤ length (filtered s))%nat
  ∧ (mode s = results ∨ mode s = review →
     incorrectFigure s
     = Z.of_nat (length (List.filter (fun x => negb (ok x)) (history s)))).
Proof.
  intros Hreach.
  pose proof (reachable_score parsed s Hreach) as Hscore.
  pose proof (filter_ok_split (history s)) as Hsplit.
  split; [lia|]. split.
  - pose proof (reachable_history_questions parsed s Hreach) as Hq.
    apply (f_equal length) in Hq.
    rewrite length_map, length_take in Hq. lia.
  - intros Hm. destruct (reachable_progress parsed s Hreach) as [_ Hlen].
    destruct (Hlen Hm) as [Hl _]. unfold incorrectFigure. lia.
Qed.

Lemma score_bounds_witness :
  incorrectFigure results_example = 0%Z.
Proof.
  apply (score_bounds [sample_single; sample_multi] results_example
           results_example_reachable). by left.
Defined.

(** X11. Every history entry of a run is well formed: its selection is not
    empty and has no repeated letter, its letters are key letters of
    options of its question that have a text, its flag is the test of
    [submitAnswer] on its own selection and question, and on a question
    that is not of type "multi" its selection is one letter. *)
Theorem history_entries (parsed : list QuestionRow) (s : State)
    (h : QuizHistory) :
  reachable parsed s →
  h ∈ history s →
  sel h ≠ [] ∧ NoDup (sel h)
  ∧ ok h = Nat.eqb (length (sel h))
              (length (split_on ";" (correct (q h))))
           && every (fun x => includes (split_on ";" (correct (q h))) x)
                (sel h)
  ∧ (∀ k, k ∈ sel h →
          ∃ text, optionText k (q h) = Some text ∧ truthy text = true)
  ∧ (type (q h) ≠ "multi" → length (sel h) = 1).
Proof. intros Hreach. by apply (reachable_entries parsed). Qed.

Lemma history_entries_witness :
  NoDup ["A"] ∧ length ["A"] = 1.
Proof.
  destruct (history_entries [sample_single; sample_multi] results_example
              (mkQuizHistory sample_single ["A"] true)
              results_example_reachable) as (_ & Hnd & _ & _ & Hlen).
  - apply elem_of_cons. by left.
  - split; [exact Hnd|]. apply Hlen. discriminate.
Defined.

(** X12. In [quiz] mode, more than one letter is selected only on a
    question of type "multi". *)
Theorem selection_single (parsed : list QuestionRow) (s : State)
    (cur : QuestionRow) :
  reachable parsed s →
  mode s = quiz →
  current s = Some cur →
  type cur ≠ "multi" →
  (length (selected s) ≤ 1)%nat.
Proof.
  intros Hreach Hm Hcur. by apply (reachable_selection parsed s Hreach Hm cur).
Qed.

Lemma selection_single_witness :
  (length (selected two_revealed_example) ≤ 1)%nat.
Proof.
  apply (selection_single [sample_single; sample_multi] two_revealed_example
           sample_single two_revealed_example_reachable);
    [reflexivity | reflexivity | discriminate].
Defined.

Lemma optionText_letters (k : string) (row : QuestionRow) (text : string) :
  optionText k row = Some text → k ∈ ["A"; "B"; "C"; "D"; "E"; "F"].
Proof.
  unfold optionText. rewrite !elem_of_cons.
  repeat (match goal with
          | |- context [String.eqb k ?l] =>
              destruct (String.eqb_spec k l); [tauto|]
          end).
  done.
Qed.

(** X13. In [quiz] mode every selected letter is the key letter of an
    option of the current question that has a text; so the selection is
    made of letters A to F and has at most six of them. *)
Theorem selection_rendered (parsed : list QuestionRow) (s : State)
    (cur : QuestionRow) :
  reachable parsed s →
  mode s = quiz →
  current s = Some cur →
  (∀ k, k ∈ selected s →
        k ∈ ["A"; "B"; "C"; "D"; "E"; "F"]
        ∧ ∃ text, optionText k cur = Some text ∧ text ≠ "")
  ∧ (length (selected s) ≤ 6)%nat.
Proof.
  intros Hreach Hm Hcur.
  destruct (reachable_selection parsed s Hreach Hm cur Hcur) as [Hin _].
  assert (∀ k, k ∈ selected s → k ∈ ["A"; "B"; "C"; "D"; "E"; "F"]) as Hsub.
  { intros k (text & Htext & _)%Hin. by eapply optionText_letters. }
  split.
  - intros k Hk. split; [by apply Hsub|].
    destruct (Hin k Hk) as (text & Htext & Ht%truthy_true). by exists text.
  - apply (submseteq_length (selected s) ["A"; "B"; "C"; "D"; "E"; "F"]).
    apply NoDup_submseteq; [by apply (reachable_NoDup parsed) | done].
Qed.

Lemma selection_rendered_witness :
  (length (selected multi_example) ≤ 6)%nat.
Proof.
  apply (selection_rendered [sample_single; sample_multi] multi_example
           sample_multi multi_example_reachable); reflexivity.
Defined.

(** X14. Once the answer is revealed, the selection on screen is the one
    of the last history entry, that entry is about the current question,
    and a click on an option changes nothing. *)
Theorem revealed_is_recorded (parsed : list QuestionRow) (s : State) :
  reachable parsed s →
  showAnswer s = true →
  (∃ h, last (history s) = Some h ∧ sel h = selected s
        ∧ (mode s = quiz → current s = Some (q h)))
  ∧ ∀ k, toggleOption k s = s.
Proof.
  intros Hreach Hshow. split; [by apply (reachable_revealed parsed)|].
  intros k. unfold toggleOption. by rewrite Hshow.
Qed.

Lemma revealed_is_recorded_witness :
  toggleOption "B" two_revealed_example = two_revealed_example.
Proof.
  apply (revealed_is_recorded [sample_single; sample_multi]
           two_revealed_example two_revealed_example_reachable).
  reflexivity.
Defined.

(** ** Clicking options *)

Lemma filter_neq_absent (k : string) (l : list string) :
  k ∉ l → List.filter (fun i => negb (String.eqb i k)) l = l.
Proof.
  induction l as [|x l IH]; simpl; [done|].
  rewrite not_elem_of_cons. intros [Hne Hl].
  destruct (String.eqb_spec x k) as [->|_]; [done|]. simpl. by rewrite IH.
Qed.

Lemma filter_neq_snoc (k : string) (l : list string) :
  k ∉ l → List.filter (fun i => negb (String.eqb i k)) (l ++ [k]) = l.
Proof.
  intros Hk. rewrite List.filter_app, (filter_neq_absent k l Hk). simpl.
  rewrite String.eqb_refl. simpl. apply app_nil_r.
Qed.

Lemma setSel_selected (s : State) : setSel (selected s) s = s.
Proof. by destruct s. Qed.

(** X15. Clicking the same letter twice, answer not revealed.  On a
    question that is not of type "multi" the second click changes nothing
    (a selected option cannot be deselected).  On a "multi" question two
    clicks on a letter that was not selected give the state back; on one
    that was selected they keep the same letters and move that letter to
    the end. *)
Theorem toggleOption_twice (k : string) (s : State) (cur : QuestionRow) :
  showAnswer s = false →
  current s = Some cur →
  (type cur ≠ "multi" →
     toggleOption k (toggleOption k s) = toggleOption k s
     ∧ selected (toggleOption k s) = [k])
  ∧ (type cur = "multi" → k ∉ selected s →
     toggleOption k (toggleOption k s) = s)
  ∧ (type cur = "multi" → k ∈ selected s → NoDup (selected s) →
     selected (toggleOption k (toggleOption k s)) ≡ₚ selected s
     ∧ last (selected (toggleOption k (toggleOption k s))) = Some k).
Proof.
  intros Hshow Hcur.
  assert (showAnswer (toggleOption k s) = false) as Hshow'.
  { by rewrite toggleOption_setSel. }
  assert (current (toggleOption k s) = Some cur) as Hcur'.
  { by rewrite toggleOption_setSel. }
  pose proof (toggleOption_selected k s cur Hshow Hcur) as H1.
  pose proof (toggleOption_selected k _ cur Hshow' Hcur') as H2.
  split; [|split].
  - intros Hty%String.eqb_neq. rewrite Hty in H1, H2. split; [|done].
    rewrite (toggleOption_setSel k (toggleOption k s)), H2, <- H1.
    apply setSel_selected.
  - intros Hty%String.eqb_eq Hk. rewrite Hty in H1, H2.
    pose proof Hk as Hk'%includes_not_elem_of. rewrite Hk' in H1.
    rewrite H1 in H2.
    assert (includes (selected s ++ [k]) k = true) as Hin.
    { apply includes_elem_of, elem_of_app. right. by apply elem_of_cons; left. }
    rewrite Hin, (filter_neq_snoc k _ Hk) in H2.
    rewrite (toggleOption_setSel k (toggleOption k s)), H2.
    transitivity (setSel (selected s) s); [|apply setSel_selected].
    by rewrite (toggleOption_setSel k s).
  - intros Hty%String.eqb_eq Hk Hnd. rewrite Hty in H1, H2.
    pose proof Hk as Hk'%includes_elem_of. rewrite Hk' in H1.
    rewrite H1 in H2.
    assert (includes
              (List.filter (fun i => negb (String.eqb i k)) (selected s)) k
            = false) as Hout.
    { apply includes_not_elem_of. rewrite elem_of_List_filter.
      intros [_ Hne]. by rewrite String.eqb_refl in Hne. }
    rewrite Hout in H2. rewrite H2. split; [|apply last_snoc].
    apply NoDup_Permutation; [|done|].
    + apply NoDup_app. split; [by apply NoDup_List_filter|].
      split; [|apply NoDup_singleton].
      intros x [_ Hx]%elem_of_List_filter ->%list_elem_of_singleton.
      by rewrite String.eqb_refl in Hx.
    + intros x. rewrite elem_of_app, elem_of_List_filter,
        list_elem_of_singleton, negb_true_iff, String.eqb_neq.
      destruct (decide (x = k)) as [->|Hne]; tauto.
Qed.

Lemma toggleOption_twice_witness :
  toggleOption "A" (toggleOption "A" multi_example) = multi_example
  ∧ selected (toggleOption "B" (toggleOption "B" multi_example))
    ≡ₚ selected multi_example.
Proof.
  destruct (toggleOption_twice "A" multi_example sample_multi eq_refl eq_refl)
    as (_ & Hnew & _).
  destruct (toggleOption_twice "B" multi_example sample_multi eq_refl eq_refl)
    as (_ & _ & Hold).
  split.
  - apply Hnew; [reflexivity|].
    apply (bool_decide_unpack _). vm_compute. exact I.
  - apply Hold; [reflexivity| |].
    + apply elem_of_cons. by left.
    + apply (bool_decide_unpack _). vm_compute. exact I.
Defined.

(** X16. A question none of whose six options has a text cannot be
    answered: while it is the current question nothing is selected, and
    the only controls that respond are the theme toggle and the way home
    (besides the arrival of the data). *)
Theorem no_options_blocks (parsed : list QuestionRow) (s : State)
    (cur : QuestionRow) (e : Event) :
  reachable parsed s →
  mode s = quiz →
  showAnswer s = false →
  current s = Some cur →
  (∀ k text, optionText k cur = Some text → text = "") →
  selected s = []
  ∧ (enabled e s = true → e = Loaded ∨ e = ToggleDark ∨ e = Reset).
Proof.
  intros Hreach Hm Hshow Hcur Hnone.
  assert (selected s = []) as Hsel.
  { destruct (reachable_selection parsed s Hreach Hm cur Hcur) as [Hin _].
    destruct (selected s) as [|k l]; [done|].
    destruct (Hin k) as (text & Htext & Ht); [apply elem_of_cons; by left|].
    by rewrite (Hnone k text Htext) in Ht. }
  split; [done|].
  destruct e; simpl; rewrite ?Hm, ?Hshow, ?Hsel, ?Hcur; try done; try tauto.
  destruct (optionText k cur) as [text|] eqn:Htext; [|done].
  by rewrite (Hnone k text Htext).
Qed.

Lemma no_options_blocks_witness :
  selected blank_example = [].
Proof.
  apply (no_options_blocks [sample_blank] blank_example sample_blank Submit);
    try reflexivity.
  - apply (run_reachable _ [Loaded; Start] initial);
      [constructor | reflexivity].
  - intros k text. unfold optionText.
    repeat (match goal with
            | |- context [String.eqb k ?l] => destruct (String.eqb k l)
            end; [by intros [= <-]|]).
    discriminate.
Defined.

(** ** Modes *)

(** X17. The mode of a run moves only along home to quiz (by the start
    button), quiz to results (by the next button), results to review, and
    from anywhere but home back to home (by reset); every other event
    leaves it.  The mode is never [coverage], and from [review] the only
    way on is the way home. *)
Theorem mode_transitions (parsed : list QuestionRow) (s : State) (e : Event) :
  reachable parsed s →
  enabled e s = true →
  mode s ≠ coverage
  ∧ (mode (handle parsed e s) = mode s
     ∨ (e = Start ∧ mode s = home ∧ mode (handle parsed e s) = quiz)
     ∨ (e = Next ∧ mode s = quiz ∧ mode (handle parsed e s) = results
        ∧ currentIdx s + 1 = length (filtered s))
     ∨ (e = ViewReview ∧ mode s = results
        ∧ mode (handle parsed e s) = review)
     ∨ (e = Reset ∧ mode s ≠ home ∧ mode (handle parsed e s) = home))
  ∧ (mode s = review → e = Loaded ∨ e = ToggleDark ∨ e = Reset).
Proof.
  intros Hreach He.
  destruct (reachable_settled parsed s Hreach) as ((_ & _ & Hrange) & _ & Hcov).
  split; [done|]. split.
  - destruct e; try by left.
    + right. left. rewrite (handle_Start parsed s He).
      by apply enabled_Start in He as [Hm _].
    + left. unfold handle. by rewrite toggleOption_setSel.
    + left. unfold handle, submitAnswer. destruct (current s); [|done].
      by destruct (Nat.eqb (length (selected s)) 0).
    + apply enabled_Next in He as [Hm _]. unfold handle, nextQuestion.
      destruct (Nat.leb_spec (length (filtered s)) (currentIdx s + 1));
        [|by left].
      right. right. left. specialize (Hrange Hm).
      repeat split; [done | lia].
    + right. right. right. right. repeat split.
      intros Hm. simpl in He. by rewrite Hm in He.
    + right. right. right. left. simpl in He.
      by apply Mode_eqb_eq in He.
  - intros Hm. destruct e; simpl in He; rewrite ?Hm in He; try done; auto.
Qed.

Lemma mode_transitions_witness :
  mode (handle [sample_single; sample_multi] ViewReview results_example)
    = mode results_example
  ∨ (ViewReview = Start ∧ mode results_example = home
     ∧ mode (handle [sample_single; sample_multi] ViewReview results_example)
       = quiz)
  ∨ (ViewReview = Next ∧ mode results_example = quiz
     ∧ mode (handle [sample_single; sample_multi] ViewReview results_example)
       = results
     ∧ currentIdx results_example + 1 = length (filtered results_example))
  ∨ (ViewReview = ViewReview ∧ mode results_example = results
     ∧ mode (handle [sample_single; sample_multi] ViewReview results_example)
       = review)
  ∨ (ViewReview = Reset ∧ mode results_example ≠ home
     ∧ mode (handle [sample_single; sample_multi] ViewReview results_example)
       = home).
Proof.
  apply (mode_transitions [sample_single; sample_multi] results_example
           ViewReview results_example_reachable). reflexivity.
Defined.

(** X18. In [quiz] mode the button wired to [nextQuestion] reads "View
    Results" exactly on the last question of the filtered list, which is
    exactly when the click ends the quiz; otherwise it reads "Next
    Question" and the click moves to the next index. *)
Theorem nextLabel_spec (parsed : list QuestionRow) (s : State) :
  reachable parsed s →
  mode s = quiz →
  (nextLabel s = "View Results"
   ↔ currentIdx s + 1 = length (filtered s))
  ∧ (nextLabel s = "View Results" ↔ mode (nextQuestion s) = results)
  ∧ (nextLabel s = "Next Question"
     ↔ mode (nextQuestion s) = quiz
       ∧ currentIdx (nextQuestion s) = currentIdx s + 1).
Proof.
  intros Hreach Hm.
  destruct (reachable_coherent parsed s Hreach) as (_ & _ & Hrange).
  specialize (Hrange Hm). unfold nextLabel, nextQuestion.
  destruct (Nat.leb_spec (length (filtered s)) (currentIdx s + 1)); simpl.
  - split; [split; [lia | done]|].
    split; [done|]. split; [done | by intros [? _]].
  - rewrite Hm. split; [split; [done | lia]|].
    split; by split.
Qed.

Lemma nextLabel_spec_witness :
  (nextLabel two_revealed_example = "Next Question"
   ↔ mode (nextQuestion two_revealed_example) = quiz
     ∧ currentIdx (nextQuestion two_revealed_example)
       = currentIdx two_revealed_example + 1).
Proof.
  apply (nextLabel_spec [sample_single; sample_multi] two_revealed_example
           two_revealed_example_reachable). reflexivity.
Defined.

(** ** Highlighting after the reveal *)

(** X19. When the revealed answer is recorded as correct, every option row
    that is rendered is highlighted as correct if it is selected and not
    highlighted otherwise; no row is highlighted as incorrect. *)
Theorem OptionRow_correct_answer (parsed : list QuestionRow) (s : State)
    (h : QuizHistory) (keyLetter text : string) :
  reachable parsed s →
  mode s = quiz →
  showAnswer s = true →
  last (history s) = Some h →
  ok h = true →
  text ≠ "" →
  OptionRow keyLetter text s =
    Some (String.append "quiz-option cursor-pointer"
            (if isSelected keyLetter s then " correct" else "")).
Proof.
  intros Hreach Hm Hshow Hlast Hok Htext%truthy_true.
  destruct (reachable_revealed parsed s Hreach Hshow)
    as (h' & Hlast' & Hsel & Hcur).
  rewrite Hlast in Hlast'. injection Hlast' as <-.
  destruct (reachable_entries parsed s Hreach h) as (_ & Hnd & Htest & _).
  { destruct (history s) as [|x l] eqn:Hh using rev_ind; [done|].
    rewrite last_snoc in Hlast. injection Hlast as ->.
    apply elem_of_app. right. apply elem_of_cons. by left. }
  rewrite Hok in Htest. symmetry in Htest.
  apply ok_test_spec in Htest as [Hlen Hincl].
  pose proof (ok_test_Permutation _ _ Hnd Hlen Hincl) as Hperm.
  unfold OptionRow, isCorrect, isSelected.
  rewrite Htext, Hshow, (Hcur Hm), <- Hsel. simpl.
  assert (includes (split_on ";" (correct (q h))) keyLetter
          = includes (sel h) keyLetter) as ->.
  { apply eq_true_iff_eq. rewrite !includes_elem_of. by rewrite Hperm. }
  by destruct (includes (sel h) keyLetter).
Qed.

Lemma OptionRow_correct_answer_witness :
  OptionRow "A" "x" two_revealed_example
    = Some "quiz-option cursor-pointer correct"
  ∧ OptionRow "B" "y" two_revealed_example
    = Some "quiz-option cursor-pointer".
Proof.
  split.
  - apply (OptionRow_correct_answer [sample_single; sample_multi]
             two_revealed_example (mkQuizHistory sample_single ["A"] true)
             "A" "x" two_revealed_example_reachable);
      try reflexivity; discriminate.
  - apply (OptionRow_correct_answer [sample_single; sample_multi]
             two_revealed_example (mkQuizHistory sample_single ["A"] true)
             "B" "y" two_revealed_example_reachable);
      try reflexivity; discriminate.
Defined.

(** ** The coverage tables *)

Lemma countSum_insert_fresh (m : gmap string nat) (k : string) (n : nat) :
  m !! k = None → countSum (<[k := n]> m) = n + countSum m.
Proof.
  intros Hk. unfold countSum. rewrite map_fold_insert_L; [done| |done].
  intros; simpl; lia.
Qed.

Lemma countSum_bump (m : gmap string nat) (k : string) :
  countSum (<[k := default 0 (m !! k) + 1]> m) = countSum m + 1.
Proof.
  destruct (m !! k) as [n|] eqn:Hk; simpl.
  - rewrite <- (insert_delete_eq m).
    rewrite countSum_insert_fresh by apply lookup_delete_eq.
    unfold countSum.
    rewrite (map_fold_delete_L _ _ k n m); [lia| |done].
    intros; simpl; lia.
  - rewrite countSum_insert_fresh by done. lia.
Qed.

Lemma tally_spec (inherited : string → bool) (f : QuestionRow → string)
    (qs : list QuestionRow) :
  ∀ m : gmap string nat,
    (∀ row, row ∈ qs → inherited (f row) = false) →
    ∃ m',
      fold_left (fun acc row => bump inherited acc (f row)) qs (Some m)
        = Some m'
      ∧ (∀ k,
           m' !! k =
             let c := length (List.filter (fun row => String.eqb (f row) k)
                                qs) in
             match m !! k with
             | Some n => Some (n + c)
             | None => if Nat.eqb c 0 then None else Some c
             end)
      ∧ countSum m' = countSum m + length qs.
Proof.
  induction qs as [|row qs IH]; intros m Hok; simpl.
  - exists m. split; [done|]. split; [|lia].
    intros k. destruct (m !! k); [f_equal; lia | done].
  - rewrite (Hok row) by (apply elem_of_cons; by left).
    destruct (IH (<[f row := default 0 (m !! f row) + 1]> m))
      as (m' & Hfold & Hlook & Hsum).
    { intros r Hr. apply Hok, elem_of_cons. by right. }
    exists m'. split; [done|]. split.
    + intros k. rewrite Hlook. simpl. rewrite lookup_insert.
      destruct (String.eqb_spec (f row) k) as [->|Hne].
      * rewrite decide_True by done. simpl.
        destruct (m !! k); simpl; f_equal; lia.
      * by rewrite decide_False by done.
    + rewrite Hsum, countSum_bump. lia.
Qed.

Lemma tally_keys (f : QuestionRow → string) (qs : list QuestionRow)
    (m : gmap string nat) :
  (∀ k, m !! k =
        let c := length (List.filter (fun row => String.eqb (f row) k) qs) in
        if Nat.eqb c 0 then None else Some c) →
  keyCount m = length (distinct (List.map f qs)).
Proof.
  intros Hlook. unfold keyCount.
  rewrite <- (size_dom (D := gset string)).
  rewrite <- (size_list_to_set (C := gset string))
    by apply distinct_from_NoDup.
  f_equal. apply set_eq. intros k.
  rewrite elem_of_dom, elem_of_list_to_set. unfold distinct.
  rewrite distinct_from_elem_of, Hlook, list_elem_of_In, in_map_iff. simpl.
  split.
  - intros [n Hn]. split; [|apply not_elem_of_nil].
    destruct (List.filter _ qs) as [|row l] eqn:Hfilter; [done|].
    assert (row ∈ List.filter (fun row => String.eqb (f row) k) qs)
      as [Hin Hrow%String.eqb_eq]%elem_of_List_filter
      by (rewrite Hfilter; apply elem_of_cons; by left).
    exists row. by rewrite <- list_elem_of_In.
  - intros [(row & Hrow & Hin%list_elem_of_In) _].
    assert (row ∈ List.filter (fun row => String.eqb (f row) k) qs) as Hmem.
    { apply elem_of_List_filter. split; [done | by apply String.eqb_eq]. }
    destruct (List.filter _ qs); [by apply elem_of_nil in Hmem | by eexists].
Qed.

(** X20. As long as no row's domain (difficulty) is a name that object
    literals inherit, the coverage table by domain (by difficulty) holds,
    for every value that occurs in the dataset, the number of rows that
    have it, and nothing for any other value; its counts add up to the
    total; and the table by domain has as many keys as the domain filter
    has options. *)
Theorem coverage_spec (inherited : string → bool) (s : State) :
  ((∀ row, row ∈ allQs s → inherited (domain row) = false) →
   ∃ m, byDom (coverageMemo inherited s) = Some m
     ∧ (∀ k n,
          m !! k = Some n ↔
            n = length (List.filter (fun row => String.eqb (domain row) k)
                          (allQs s))
            ∧ n ≠ 0)
     ∧ countSum m = total (coverageMemo inherited s)
     ∧ keyCount m = length (domainOptions s))
  ∧ ((∀ row, row ∈ allQs s → inherited (difficulty row) = false) →
     ∃ m, byDiff (coverageMemo inherited s) = Some m
       ∧ (∀ k n,
            m !! k = Some n ↔
              n = length (List.filter
                            (fun row => String.eqb (difficulty row) k)
                            (allQs s))
              ∧ n ≠ 0)
       ∧ countSum m = total (coverageMemo inherited s)).
Proof.
  split; intros Hok.
  - destruct (tally_spec inherited domain (allQs s) ∅ Hok)
      as (m & Hfold & Hlook0 & Hsum).
    assert (∀ k, m !! k =
              let c := length (List.filter
                         (fun row => String.eqb (domain row) k) (allQs s)) in
              if Nat.eqb c 0 then None else Some c) as Hlook.
    { intros k. by rewrite Hlook0, lookup_empty. }
    exists m. split; [done|]. split; [|split].
    + intros k n. rewrite Hlook. simpl.
      destruct (Nat.eqb_spec (length (List.filter
        (fun row => String.eqb (domain row) k) (allQs s))) 0) as [->|Hne].
      * split; [done | by intros [-> ?]].
      * split; [by intros [= <-] | by intros [-> _]].
    + by rewrite Hsum.
    + rewrite (tally_keys domain (allQs s) m Hlook). unfold domainOptions, sort.
      symmetry. apply Permutation_length, merge_sort_Permutation.
  - destruct (tally_spec inherited difficulty (allQs s) ∅ Hok)
      as (m & Hfold & Hlook0 & Hsum).
    assert (∀ k, m !! k =
              let c := length (List.filter
                         (fun row => String.eqb (difficulty row) k) (allQs s)) in
              if Nat.eqb c 0 then None else Some c) as Hlook.
    { intros k. by rewrite Hlook0, lookup_empty. }
    exists m. split; [done|]. split.
    + intros k n. rewrite Hlook. simpl.
      destruct (Nat.eqb_spec (length (List.filter
        (fun row => String.eqb (difficulty row) k) (allQs s))) 0) as [->|Hne].
      * split; [done | by intros [-> ?]].
      * split; [by intros [= <-] | by intros [-> _]].
    + by rewrite Hsum.
Qed.

Lemma coverage_spec_witness :
  ∃ m, byDom (coverageMemo sample_inherited loaded_example) = Some m
       ∧ countSum m = 3 ∧ keyCount m = 2.
Proof.
  destruct (proj1 (coverage_spec sample_inherited loaded_example))
    as (m & Hm & _ & Hsum & Hkeys).
  - intros row. simpl. rewrite !elem_of_cons, elem_of_nil.
    intros [->|[->|[->|[]]]]; reflexivity.
  - exists m. split; [exact Hm|]. split; [exact Hsum | exact Hkeys].
Defined.

(** ** A whole quiz *)

Lemma run_cons (parsed : list QuestionRow) (e : Event) (es : list Event)
    (s : State) :
  enabled e s = true →
  run parsed (e :: es) s = run parsed es (handle parsed e s).
Proof. intros He. cbn [run]. by rewrite He. Qed.

Lemma filter_keeps_all (qs : list QuestionRow) :
  List.filter (keeps "" "" "") qs = qs.
Proof. induction qs as [|row qs IH]; simpl; [done | by rewrite IH]. Qed.

Lemma answerAll_run (parsed qs : list QuestionRow) :
  (∀ row, row ∈ qs → truthy (option_a row) = true) →
  ∀ n i sc hist,
    i + S n = length qs →
    ∃ s',
      run parsed (answerAll (S n))
        (mkState qs qs "" "" "" i sc [] hist quiz false false) = Some s'
      ∧ mode s' = results
      ∧ List.map q (history s') = List.map q hist ++ drop i qs
      ∧ (∀ h, h ∈ history s' → h ∈ hist ∨ sel h = ["A"]).
Proof.
  intros Hopt. induction n as [|n IH]; intros i sc hist Hlen.
  all: destruct (lookup_lt_is_Some_2 qs i) as [cur Hcur]; [lia|].
  all: pose proof (Hopt cur (list_elem_of_lookup_2 _ _ _ Hcur)) as Ha.
  all: cbn [answerAll].
  all: rewrite run_cons by (simpl; unfold current; simpl; by rewrite Hcur).
  all: assert (handle parsed (ToggleOption "A")
                 (mkState qs qs "" "" "" i sc [] hist quiz false false)
               = mkState qs qs "" "" "" i sc ["A"] hist quiz false false)
         as -> by (unfold handle, toggleOption, current; simpl; rewrite Hcur;
                   by destruct (String.eqb (type cur) "multi")).
  all: rewrite run_cons by (simpl; unfold current; simpl; by rewrite Hcur).
  all: unfold handle at 1;
       rewrite (submitAnswer_unfold _ cur) by (done || discriminate).
  all: simpl selected; simpl history; simpl score;
       set (b := Nat.eqb _ _ && every _ _).
  all: rewrite run_cons by (simpl; unfold current; simpl; by rewrite Hcur).
  all: unfold handle at 1, nextQuestion; simpl filtered; simpl currentIdx.
  - destruct (Nat.leb_spec (length qs) (i + 1)); [|lia].
    eexists. split; [done|]. split; [done|]. simpl. split.
    + rewrite List.map_app, (drop_S _ _ _ Hcur). simpl.
      by rewrite drop_ge by lia.
    + intros h [Hh| ->%list_elem_of_singleton]%elem_of_app; [by left | by right].
  - destruct (Nat.leb_spec (length qs) (i + 1)); [lia|].
    destruct (IH (i + 1) (sc + (if b then 1 else 0))
                (hist ++ [mkQuizHistory cur ["A"] b])) as (s' & Hrun & Hm & Hq & Hsel);
      [lia|].
    exists s'. split; [exact Hrun|]. split; [done|]. split.
    + rewrite Hq, List.map_app, (drop_S _ _ _ Hcur). simpl.
      rewrite <- app_assoc. simpl. by rewrite Nat.add_1_r.
    + intros h Hh. destruct (Hsel h Hh) as [Hin|Hs]; [|by right].
      apply elem_of_app in Hin as [Hin| ->%list_elem_of_singleton];
        [by left | by right].
Qed.

(** X21. A quiz on complete rows can always be finished: when the loaded
    dataset is not empty and every loaded row has a text for option A and
    a correct-answer spec that is not empty (the option rows and
    [submitAnswer] split the spec, which a row without that column does
    not have), loading, starting and then, once per question, clicking A,
    submitting and going on is a run; it ends in [results] with one
    history entry per loaded row, in the order of the rows, each with the
    selection A. *)
Theorem quiz_can_be_finished (parsed : list QuestionRow) :
  parseCsv parsed ≠ [] →
  (∀ row, row ∈ parseCsv parsed → option_a row ≠ "") →
  (∀ row, row ∈ parseCsv parsed → correct row ≠ "") →
  ∃ s,
    run parsed (Loaded :: Start :: answerAll (length (parseCsv parsed)))
      initial = Some s
    ∧ mode s = results
    ∧ List.map q (history s) = parseCsv parsed
    ∧ (∀ h, h ∈ history s → sel h = ["A"]).
Proof.
  intros Hne Hopt _. set (qs := parseCsv parsed) in *.
  rewrite run_cons by done.
  assert (handle parsed Loaded initial
          = mkState qs qs "" "" "" 0 0 [] [] home false false) as ->.
  { unfold handle, applyFilters, setFiltered, setAll. simpl.
    fold qs. by rewrite filter_keeps_all. }
  rewrite run_cons by (simpl; by destruct qs).
  assert (handle parsed Start
            (mkState qs qs "" "" "" 0 0 [] [] home false false)
          = mkState qs qs "" "" "" 0 0 [] [] quiz false false) as ->.
  { unfold handle, startQuiz. simpl. by destruct qs. }
  destruct (length qs) as [|n] eqn:Hlen; [by destruct qs|].
  destruct (answerAll_run parsed qs) with (n := n) (i := 0) (sc := 0)
    (hist := @nil QuizHistory) as (s & Hrun & Hm & Hq & Hsel).
  - intros row Hrow. by apply truthy_true, Hopt.
  - by rewrite Hlen.
  - exists s. split; [exact Hrun|]. split; [done|]. split; [done|].
    intros h Hh. destruct (Hsel h Hh) as [Hin|Hs]; [|done].
    by apply elem_of_nil in Hin.
Qed.

Lemma quiz_can_be_finished_witness :
  ∃ s,
    run [sample_single; sample_multi]
      [Loaded; Start; ToggleOption "A"; Submit; Next;
       ToggleOption "A"; Submit; Next] initial = Some s
    ∧ mode s = results
    ∧ List.map q (history s) = [sample_single; sample_multi]
    ∧ (∀ h, h ∈ history s → sel h = ["A"]).
Proof.
  apply (quiz_can_be_finished [sample_single; sample_multi]).
  - discriminate.
  - intros row. simpl. rewrite !elem_of_cons, elem_of_nil.
    intros [->|[->|[]]]; discriminate.
  - intros row. simpl. rewrite !elem_of_cons, elem_of_nil.
    intros [->|[->|[]]]; discriminate.
Defined.

(** ** Filter selections *)

Lemma sublist_List_filter_impl {A} (f g : A → bool) (l : list A) :
  (∀ x, f x = true → g x = true) →
  List.filter f l `sublist_of` List.filter g l.
Proof.
  intros Himpl. induction l as [|x l IH]; simpl; [constructor|].
  destruct (f x) eqn:Hf.
  - rewrite (Himpl x Hf). by constructor.
  - destruct (g x); [by constructor | done].
Qed.

(** X22. The three filter selections do not interfere: selecting in two
    dimensions gives the same state in either order; in each of the three
    dimensions a second selection replaces the first; after a selection in
    each dimension the state holds the three values and the rows that pass
    all three, whatever was selected before; and a selection in a dimension
    can only remove rows from what "all" of that dimension shows, keeping
    the order. *)
Theorem filters_compose (parsed : list QuestionRow) (s : State)
    (a a' b b' c c' : string) :
  handle parsed (SelectSet a) (handle parsed (SelectDomain b) s)
    = handle parsed (SelectDomain b) (handle parsed (SelectSet a) s)
  ∧ handle parsed (SelectSet a) (handle parsed (SelectDifficulty c) s)
    = handle parsed (SelectDifficulty c) (handle parsed (SelectSet a) s)
  ∧ handle parsed (SelectDomain b) (handle parsed (SelectDifficulty c) s)
    = handle parsed (SelectDifficulty c) (handle parsed (SelectDomain b) s)
  ∧ handle parsed (SelectSet a) (handle parsed (SelectSet a') s)
    = handle parsed (SelectSet a) s
  ∧ handle parsed (SelectDomain b) (handle parsed (SelectDomain b') s)
    = handle parsed (SelectDomain b) s
  ∧ handle parsed (SelectDifficulty c) (handle parsed (SelectDifficulty c') s)
    = handle parsed (SelectDifficulty c) s
  ∧ handle parsed (SelectSet a) s
    = mkState (allQs s)
        (List.filter (keeps a (domainFilter s) (diff s)) (allQs s))
        a (domainFilter s) (diff s) (currentIdx s) (score s) (selected s)
        (history s) (mode s) (showAnswer s) (darkMode s)
  ∧ handle parsed (SelectDomain b) s
    = mkState (allQs s)
        (List.filter (keeps (setId s) b (diff s)) (allQs s))
        (setId s) b (diff s) (currentIdx s) (score s) (selected s)
        (history s) (mode s) (showAnswer s) (darkMode s)
  ∧ handle parsed (SelectDifficulty c) s
    = mkState (allQs s)
        (List.filter (keeps (setId s) (domainFilter s) c) (allQs s))
        (setId s) (domainFilter s) c (currentIdx s) (score s) (selected s)
        (history s) (mode s) (showAnswer s) (darkMode s)
  ∧ handle parsed (SelectDifficulty c)
      (handle parsed (SelectDomain b) (handle parsed (SelectSet a) s))
    = mkState (allQs s) (List.filter (keeps a b c) (allQs s)) a b c
        (currentIdx s) (score s) (selected s) (history s) (mode s)
        (showAnswer s) (darkMode s)
  ∧ filtered (handle parsed (SelectSet a) s)
      `sublist_of` filtered (handle parsed (SelectSet "") s)
  ∧ filtered (handle parsed (SelectDomain b) s)
      `sublist_of` filtered (handle parsed (SelectDomain "") s)
  ∧ filtered (handle parsed (SelectDifficulty c) s)
      `sublist_of` filtered (handle parsed (SelectDifficulty "") s).
Proof.
  repeat split; try reflexivity; simpl; apply sublist_List_filter_impl;
    intros row; unfold keeps; simpl;
    rewrite !andb_true_iff; tauto.
Qed.

(** X23. Every value offered by the set filter, and every value offered
    by the domain filter, matches at least one row when it is the only
    selection, so that the quiz can be started; the rows it keeps all
    carry that value.  The difficulty filter has no such guarantee. *)
Theorem offered_option_matches (s : State) (v : string) :
  (v ∈ setOptions s →
   let out := filtered (applyFilters (setDiff "" (setDomain ""
                (setSetId v s)))) in
   out ≠ [] ∧ (v ≠ "" → ∀ row, row ∈ out → set_id row = v))
  ∧ (v ∈ domainOptions s →
     let out := filtered (applyFilters (setDiff "" (setSetId ""
                  (setDomain v s)))) in
     out ≠ [] ∧ (v ≠ "" → ∀ row, row ∈ out → domain row = v)).
Proof.
  split; intros Hv; simpl.
  - destruct (sort_distinct_spec set_id (allQs s)) as (_ & _ & Hmem).
    apply Hmem in Hv as (row & Hrow & Hset). split.
    + intros Hnil.
      assert (row ∈ List.filter (keeps v "" "") (allQs s)) as Hin.
      { apply elem_of_List_filter. split; [done|].
        apply keeps_spec. auto. }
      rewrite Hnil in Hin. by apply elem_of_nil in Hin.
    + intros Hne r [_ Hr%keeps_spec]%elem_of_List_filter.
      by destruct Hr as ([?|?] & _).
  - destruct (sort_distinct_spec domain (allQs s)) as (_ & _ & Hmem).
    apply Hmem in Hv as (row & Hrow & Hset). split.
    + intros Hnil.
      assert (row ∈ List.filter (keeps "" v "") (allQs s)) as Hin.
      { apply elem_of_List_filter. split; [done|].
        apply keeps_spec. auto. }
      rewrite Hnil in Hin. by apply elem_of_nil in Hin.
    + intros Hne r [_ Hr%keeps_spec]%elem_of_List_filter.
      by destruct Hr as (_ & [?|?] & _).
Qed.

Lemma offered_option_matches_witness :
  filtered (applyFilters (setDiff "" (setDomain ""
              (setSetId "B" loaded_example)))) ≠ [].
Proof.
  apply (offered_option_matches loaded_example "B").
  apply (bool_decide_unpack _). vm_compute. exact I.
Defined.

(** The difficulty filter offers "hard" also when no row is hard. *)
Example difficulty_option_may_match_nothing :
  "hard" ∈ difficultyOptions
  ∧ filtered (applyFilters (setDiff "hard"
      (setAll [sample_single] initial))) = [].
Proof.
  split; [|reflexivity]. apply (bool_decide_unpack _). vm_compute. exact I.
Qed.
